(** * CSE fundamental analyzer: scoring, grading and screening core

    A shallow embedding of the scoring pipeline of
    [analysis/comprehensive_analysis.py], of the cash-flow and
    earnings-quality steps of [analysis/advanced_metrics.py] and of the
    criterion engine and the GARP strategy of [analysis/screeners.py],
    with the properties the specification states about them and further
    properties read off the code.

    Python [float] is IEEE-754 binary64.  It is modelled by the
    [spec_float] type of the Standard Library at precision 53 and
    exponent bound 1024, whose operations are the correctly rounded
    (nearest-even) ones, so every arithmetic step of the source is
    evaluated bit for bit.  The two library functions whose results the
    language does not fix to the last bit, [float] on a string and the
    C library's [pow] behind [x ** 0.5], are parameters.  Python [int] is
    [Z]; [dict] is [gmap].  Real numbers state what a float result is
    close to. *)

From Stdlib Require Import Reals Lra.
From Stdlib Require Import ZArith Lia String Ascii List Bool Floats.SpecFloat.
From Stdlib Require Import Sorting.Permutation.
From stdpp Require Import gmap strings.

Local Open Scope Z_scope.

(** ** Binary64 *)

Module Float64.

Definition prec : Z := 53.
Definition emax : Z := 1024.

Abbreviation float := spec_float.

Definition add : float -> float -> float := SFadd prec emax.
Definition sub : float -> float -> float := SFsub prec emax.
Definition mul : float -> float -> float := SFmul prec emax.
Definition div : float -> float -> float := SFdiv prec emax.
Definition sqrt : float -> float := SFsqrt prec emax.
Definition abs : float -> float := SFabs.

Definition ltb : float -> float -> bool := SFltb.
Definition leb : float -> float -> bool := SFleb.
Definition eqb : float -> float -> bool := SFeqb.

Definition valid (x : float) : bool := valid_binary prec emax x.

Definition is_nan (x : float) : bool :=
  match x with S754_nan => true | _ => false end.

Definition is_finite (x : float) : bool :=
  match x with S754_zero _ | S754_finite _ _ _ => true | _ => false end.

(** [float(n)] for a Python [int] that is in range: the nearest binary64
    (exact below 2^53). *)
Definition of_Z (n : Z) : float := binary_normalize prec emax n 0 false.

(** The decimal literal [n]e-[k] of the source text, e.g. [dec 181 2] for
    [1.81].  Numerator and denominator are exact binary64 values and the
    quotient is rounded once, which is how the literal is read. *)
Definition dec (n : Z) (k : Z) : float := div (of_Z n) (of_Z (10 ^ k)).

Definition zero : float := S754_zero false.

End Float64.

Import Float64.

Declare Scope f64_scope.
#[warnings="-hiding-delimiting-key"]
Delimit Scope f64_scope with F.
Infix "+" := add : f64_scope.
Infix "-" := sub : f64_scope.
Infix "*" := mul : f64_scope.
Infix "<?" := ltb : f64_scope.
Infix "<=?" := leb : f64_scope.
Notation "x >? y" := (ltb y x) : f64_scope.
Notation "x >=? y" := (leb y x) : f64_scope.
Infix "=?" := eqb : f64_scope.

(** ** Python built-ins used by the analyzer *)

Module Py.

(** [ord] and [chr] on one-character strings. *)
Definition ord (c : ascii) : Z := Z.of_nat (nat_of_ascii c).
Definition chr (n : Z) : ascii := ascii_of_nat (Z.to_nat n).

Definition str_of_char (c : ascii) : string := String c EmptyString.

(** [c in [...]] on characters. *)
Definition char_in (c : ascii) (l : list ascii) : bool :=
  existsb (Ascii.eqb c) l.

(** Two-argument [min] and [max] on floats: the first argument is kept
    unless the second compares strictly better. *)
Definition fmin (a b : float) : float := if (b <? a)%F then b else a.
Definition fmax (a b : float) : float := if (b >? a)%F then b else a.

(** A division by a float that compares equal to zero raises
    [ZeroDivisionError]; [None] stands for an escaping exception. *)
Definition py_div (a b : float) : option float :=
  if (b =? zero)%F then None else Some (div a b).

(** [int(x)]: truncation toward zero; NaN and the infinities raise. *)
Definition py_int (x : float) : option Z :=
  match x with
  | S754_zero _ => Some 0
  | S754_finite s m e => Some (cond_Zopp s (Z.shiftl (Zpos m) e))
  | S754_infinity _ | S754_nan => None
  end.

(** [float(n)] for an [int]: [OverflowError] when no finite binary64 is
    nearest. *)
Definition float_of_int (n : Z) : option float :=
  let x := of_Z n in if is_finite x then Some x else None.

(** Round-half-even of [m / 2^k] for [m >= 0], [k >= 0]. *)
Definition rne_shift (m k : Z) : Z :=
  let q := Z.shiftr m k in
  let r := m - Z.shiftl q k in
  match Z.compare (2 * r) (Z.shiftl 1 k) with
  | Lt => q
  | Gt => q + 1
  | Eq => if Z.even q then q else q + 1
  end.

(** [round(x, 2)]: the exact value of [x] is rounded half-even to two
    decimals and the decimal is read back as the nearest binary64; NaN,
    infinities and zeros round to themselves. *)
Definition py_round2 (x : float) : float :=
  match x with
  | S754_finite s m e =>
      let n := if 0 <=? e then Z.shiftl (Zpos m * 100) e
               else rne_shift (Zpos m * 100) (- e) in
      match n with
      | Zpos p => div (S754_finite s p 0) (of_Z 100)
      | _ => S754_zero s
      end
  | _ => x
  end.

(** [s.replace(c, '')] *)
Fixpoint str_remove (c : ascii) (s : string) : string :=
  match s with
  | EmptyString => EmptyString
  | String a s' =>
      if Ascii.eqb a c then str_remove c s' else String a (str_remove c s')
  end.

End Py.

Import Py.

(** ** [ComprehensiveInvestmentAnalyzer]: classification *)

Definition determine_grade (composite piotroski : Z) (altman : float) : string :=
  let base_grade : ascii :=
    if composite >=? 80 then "A"%char
    else if composite >=? 65 then "B"%char
    else if composite >=? 50 then "C"%char
    else if composite >=? 35 then "D"%char
    else "F"%char in
  let base_grade :=
    if (piotroski >=? 7) && char_in base_grade ["B"; "C"]%char
    then chr (ord base_grade - 1)
    else if (piotroski <=? 3) && char_in base_grade ["A"; "B"; "C"]%char
    then chr (ord base_grade + 1)
    else base_grade in
  let base_grade :=
    if (altman <? dec 181 2)%F && negb (Ascii.eqb base_grade "F"%char)
    then chr (Z.min (ord base_grade + 1) (ord "F"%char))
    else base_grade in
  str_of_char base_grade.

Definition generate_recommendation
    (composite piotroski : Z) (altman graham_upside : float) : string :=
  if (altman <? dec 15 1)%F then "Avoid - High Bankruptcy Risk"%string
  else if piotroski <=? 2 then "Avoid - Weak Financials"%string
  else if (composite >=? 75) && (piotroski >=? 7) && (graham_upside >? of_Z 20)%F
  then "Strong Buy"%string
  else if (composite >=? 65) && (piotroski >=? 6) && (graham_upside >? of_Z 0)%F
  then "Buy"%string
  else if (composite >=? 50) && (piotroski >=? 5) then "Hold"%string
  else if composite >=? 35 then "Weak Hold"%string
  else "Sell / Avoid"%string.

(** The five letters the [InvestmentScores] field documents. *)
Definition grade_alphabet : list string := ["A"; "B"; "C"; "D"; "F"]%string.

(** Rank of a grade in the ordering A (best) < B < C < D < F (worst): the
    code point of its letter. *)
Definition grade_rank (g : string) : Z :=
  match g with
  | String c _ => ord c
  | EmptyString => 0
  end.

(** ** Company records *)

(** The values a record can hold under a key: [None], a string, a float,
    an integer, or any other object (on which [float()] raises
    [TypeError]). *)
Inductive py_value : Type :=
| PyNone
| PyStr (s : string)
| PyFloat (x : float)
| PyInt (n : Z)
| PyOther.

Abbreviation record := (gmap string py_value).

Record InvestmentScores : Type := {
  piotroski_f_score : Z;
  altman_z_score : float;
  graham_number : float;
  graham_upside : float;
  magic_formula_rank : Z;
  quality_score : Z;
  safety_score : Z;
  value_score : Z;
  dividend_score : Z;
  growth_score : Z;
  momentum_score : Z;
  composite_score : Z;
  investment_grade : string;
  recommendation : string
}.

(** ** [ComprehensiveInvestmentAnalyzer]: coercion and sub-scores *)

Section Analyzer.

(** Python's built-in [float] applied to a [str]; [None] is [ValueError].
    The built-in is not part of the repository and stays a parameter. *)
Variable float_of_str : string -> option float.

(** [x ** 0.5] on a float [x].  CPython hands the operation to the C
    library's [pow], whose result is close to the square root but is not
    required to be the correctly rounded one and differs between
    libraries in the last place.  The library is not part of the
    repository and stays a parameter. *)
Variable pow_half : float -> float.

(** A numeric default that is an [int] in the source (0, 1, 30, ...) is
    written as the binary64 of the same value: every use of the result is
    a comparison or an arithmetic operation with floats, which converts
    the integer exactly. *)
Definition _get_float (data : record) (key : string) (default : float)
    : option float :=
  let value :=
    match data !! key with Some v => v | None => PyFloat default end in
  match value with
  | PyNone => Some default
  | PyStr s =>
      let s := str_remove "%" (str_remove "," s) in
      match float_of_str s with Some x => Some x | None => Some default end
  | PyFloat x => Some x
  | PyInt n => float_of_int n
  | PyOther => Some default
  end.

Definition calculate_piotroski_f_score (data : record) : option Z :=
  net_profit ← _get_float data "net_profit" (of_Z 0);
  eps ← _get_float data "eps" (of_Z 0);
  operating_cf ← _get_float data "operating_cash_flow" (of_Z 0);
  roa ← _get_float data "roa" (of_Z 0);
  roe ← _get_float data "roe" (of_Z 0);
  debt_equity ← _get_float data "debt_equity" (of_Z 1);
  current_ratio ← _get_float data "current_ratio" (of_Z 1);
  gross_margin ← _get_float data "gross_margin" (of_Z 0);
  asset_turnover ← _get_float data "asset_turnover" (of_Z 0);
  let score := 0 in
  let score :=
    if (net_profit >? of_Z 0)%F || (eps >? of_Z 0)%F then score + 1
    else score in
  let score := if (operating_cf >? of_Z 0)%F then score + 1 else score in
  let score := if (roa >? of_Z 0)%F then score + 1 else score in
  let score :=
    if (operating_cf >? net_profit)%F && (net_profit >? of_Z 0)%F
    then score + 1
    else if (operating_cf >? of_Z 0)%F && (eps >? of_Z 0)%F then score + 1
    else score in
  let score := if (debt_equity <? dec 5 1)%F then score + 1 else score in
  let score := if (current_ratio >? dec 10 1)%F then score + 1 else score in
  let score :=
    if (debt_equity <? of_Z 1)%F && (roe >? of_Z 10)%F then score + 1
    else score in
  let score := if (gross_margin >? of_Z 20)%F then score + 1 else score in
  let score := if (asset_turnover >? dec 5 1)%F then score + 1 else score in
  Some (Z.min score 9).

Definition calculate_altman_z_score (data : record) : option float :=
  total_assets ← _get_float data "total_assets" (of_Z 1);
  total_liabilities ← _get_float data "total_liabilities" (of_Z 0);
  market_cap ← _get_float data "market_cap" (of_Z 0);
  revenue ← _get_float data "revenue" (of_Z 0);
  shareholders_equity ← _get_float data "shareholders_equity" (of_Z 0);
  current_ratio ← _get_float data "current_ratio" (of_Z 1);
  operating_income ← _get_float data "operating_income" (of_Z 0);
  net_profit ← _get_float data "net_profit" (of_Z 0);
  if (total_assets <=? of_Z 0)%F then Some (of_Z 0)
  else
    let working_capital_ratio := ((current_ratio - of_Z 1) * dec 3 1)%F in
    let A := fmax (fmin working_capital_ratio (dec 5 1)) (dec (-3) 1) in
    B ← (if (shareholders_equity >? of_Z 0)%F
         then q ← py_div shareholders_equity total_assets;
              Some (q * dec 7 1)%F
         else Some (of_Z 0));
    let B := fmax (fmin B (dec 5 1)) (of_Z 0) in
    C ← (if (operating_income >? of_Z 0)%F
         then py_div operating_income total_assets
         else if (net_profit >? of_Z 0)%F
         then q ← py_div net_profit total_assets; Some (q * dec 13 1)%F
         else Some (of_Z 0));
    let C := fmax (fmin C (dec 3 1)) (dec (-1) 1) in
    D ← (if (total_liabilities >? of_Z 0)%F
         then py_div market_cap total_liabilities
         else Some (of_Z 5));
    let D := fmax (fmin D (of_Z 5)) (of_Z 0) in
    E ← (if (revenue >? of_Z 0)%F
         then py_div revenue total_assets
         else Some (of_Z 0));
    let E := fmax (fmin E (of_Z 2)) (of_Z 0) in
    let z_score :=
      (dec 12 1 * A + dec 14 1 * B + dec 33 1 * C + dec 6 1 * D
       + dec 10 1 * E)%F in
    Some (py_round2 z_score).

Definition calculate_graham_number (data : record) : option float :=
  eps ← _get_float data "eps" (of_Z 0);
  nav ← _get_float data "nav" (of_Z 0);
  if (eps >? of_Z 0)%F && (nav >? of_Z 0)%F
  then
    let graham_number := pow_half (dec 225 1 * eps * nav)%F in
    Some (py_round2 graham_number)
  else Some (of_Z 0).

Definition calculate_graham_upside (data : record)
    (graham_number : option float) : option float :=
  graham_number ←
    (match graham_number with
     | None => calculate_graham_number data
     | Some g => Some g
     end);
  price ← _get_float data "last_traded_price" (of_Z 0);
  if (price >? of_Z 0)%F && (graham_number >? of_Z 0)%F
  then
    q ← py_div (graham_number - price)%F price;
    let upside := (q * of_Z 100)%F in
    Some (py_round2 upside)
  else Some (of_Z 0).

Definition calculate_magic_formula_rank (data : record) : option Z :=
  pe ← _get_float data "pe_ratio" (of_Z 20);
  earnings_yield ←
    (if (pe >? of_Z 0)%F
     then q ← py_div (of_Z 1) pe; Some (q * of_Z 100)%F
     else Some (of_Z 0));
  roe ← _get_float data "roe" (of_Z 10);
  debt_equity ← _get_float data "debt_equity" (dec 5 1);
  roc ←
    (if (debt_equity >? of_Z 0)%F
     then py_div roe (of_Z 1 + debt_equity)%F
     else Some roe);
  q ← py_div (fmin earnings_yield (of_Z 20)) (of_Z 20);
  let ey_score := (q * of_Z 50)%F in
  q ← py_div (fmin roc (of_Z 30)) (of_Z 30);
  let roc_score := (q * of_Z 50)%F in
  let total_score := (ey_score + roc_score)%F in
  t ← py_int total_score;
  let rank := 100 - t in
  Some (Z.max 1 (Z.min rank 100)).

Definition calculate_quality_score (data : record) : option Z :=
  roe ← _get_float data "roe" (of_Z 0);
  roa ← _get_float data "roa" (of_Z 0);
  gross_margin ← _get_float data "gross_margin" (of_Z 0);
  net_margin ← _get_float data "net_margin" (of_Z 0);
  asset_turnover ← _get_float data "asset_turnover" (of_Z 0);
  let score := 0 in
  let score :=
    if (roe >=? of_Z 25)%F then score + 30
    else if (roe >=? of_Z 20)%F then score + 25
    else if (roe >=? of_Z 15)%F then score + 20
    else if (roe >=? of_Z 10)%F then score + 15
    else if (roe >=? of_Z 5)%F then score + 10
    else if (roe >? of_Z 0)%F then score + 5
    else score in
  let score :=
    if (roa >=? of_Z 15)%F then score + 20
    else if (roa >=? of_Z 10)%F then score + 15
    else if (roa >=? of_Z 7)%F then score + 10
    else if (roa >=? of_Z 5)%F then score + 7
    else if (roa >? of_Z 0)%F then score + 3
    else score in
  let score :=
    if (gross_margin >=? of_Z 40)%F then score + 20
    else if (gross_margin >=? of_Z 30)%F then score + 15
    else if (gross_margin >=? of_Z 20)%F then score + 10
    else if (gross_margin >=? of_Z 15)%F then score + 5
    else score in
  let score :=
    if (net_margin >=? of_Z 20)%F then score + 20
    else if (net_margin >=? of_Z 15)%F then score + 15
    else if (net_margin >=? of_Z 10)%F then score + 10
    else if (net_margin >=? of_Z 5)%F then score + 5
    else score in
  let score :=
    if (asset_turnover >=? dec 15 1)%F then score + 10
    else if (asset_turnover >=? dec 10 1)%F then score + 7
    else if (asset_turnover >=? dec 5 1)%F then score + 4
    else score in
  Some (Z.min score 100).

Definition calculate_safety_score (data : record) : option Z :=
  debt_equity ← _get_float data "debt_equity" (of_Z 1);
  current_ratio ← _get_float data "current_ratio" (of_Z 1);
  eps ← _get_float data "eps" (of_Z 0);
  let score := 0 in
  let score :=
    if (debt_equity <=? dec 2 1)%F then score + 40
    else if (debt_equity <=? dec 3 1)%F then score + 35
    else if (debt_equity <=? dec 5 1)%F then score + 30
    else if (debt_equity <=? dec 7 1)%F then score + 25
    else if (debt_equity <=? dec 10 1)%F then score + 20
    else if (debt_equity <=? dec 15 1)%F then score + 10
    else score in
  let score :=
    if (current_ratio >=? dec 25 1)%F then score + 30
    else if (current_ratio >=? dec 20 1)%F then score + 25
    else if (current_ratio >=? dec 15 1)%F then score + 20
    else if (current_ratio >=? dec 12 1)%F then score + 15
    else if (current_ratio >=? dec 10 1)%F then score + 10
    else if (current_ratio >=? dec 8 1)%F then score + 5
    else score in
  let score :=
    if (eps >? of_Z 10)%F then score + 30
    else if (eps >? of_Z 5)%F then score + 25
    else if (eps >? of_Z 2)%F then score + 20
    else if (eps >? of_Z 0)%F then score + 15
    else score in
  Some (Z.min score 100).

Definition calculate_value_score (data : record) : option Z :=
  pe ← _get_float data "pe_ratio" (of_Z 30);
  pb ← _get_float data "pb_ratio" (of_Z 3);
  div_yield ← _get_float data "dividend_yield" (of_Z 0);
  let score := 0 in
  let score :=
    if (of_Z 0 <? pe)%F && (pe <=? of_Z 8)%F then score + 35
    else if (pe <=? of_Z 10)%F then score + 30
    else if (pe <=? of_Z 12)%F then score + 25
    else if (pe <=? of_Z 15)%F then score + 20
    else if (pe <=? of_Z 20)%F then score + 15
    else if (pe <=? of_Z 25)%F then score + 10
    else if (pe <=? of_Z 30)%F then score + 5
    else score in
  let score :=
    if (of_Z 0 <? pb)%F && (pb <=? dec 7 1)%F then score + 35
    else if (pb <=? dec 10 1)%F then score + 30
    else if (pb <=? dec 12 1)%F then score + 25
    else if (pb <=? dec 15 1)%F then score + 20
    else if (pb <=? dec 20 1)%F then score + 15
    else if (pb <=? dec 25 1)%F then score + 10
    else if (pb <=? dec 30 1)%F then score + 5
    else score in
  let score :=
    if (div_yield >=? of_Z 8)%F then score + 30
    else if (div_yield >=? of_Z 6)%F then score + 25
    else if (div_yield >=? of_Z 5)%F then score + 20
    else if (div_yield >=? of_Z 4)%F then score + 15
    else if (div_yield >=? of_Z 3)%F then score + 10
    else if (div_yield >=? of_Z 2)%F then score + 5
    else score in
  Some (Z.min score 100).

Definition calculate_dividend_score (data : record) : option Z :=
  div_yield ← _get_float data "dividend_yield" (of_Z 0);
  dps ← _get_float data "dividend_per_share" (of_Z 0);
  eps ← _get_float data "eps" (of_Z 0);
  payout_ratio ←
    (if (eps >? of_Z 0)%F && (dps >? of_Z 0)%F
     then q ← py_div dps eps; Some (q * of_Z 100)%F
     else Some (of_Z 0));
  let score := 0 in
  let score :=
    if (div_yield >=? of_Z 8)%F then score + 50
    else if (div_yield >=? of_Z 6)%F then score + 45
    else if (div_yield >=? of_Z 5)%F then score + 40
    else if (div_yield >=? of_Z 4)%F then score + 35
    else if (div_yield >=? of_Z 3)%F then score + 25
    else if (div_yield >=? of_Z 2)%F then score + 15
    else if (div_yield >=? of_Z 1)%F then score + 5
    else score in
  let score :=
    if (of_Z 30 <=? payout_ratio)%F && (payout_ratio <=? of_Z 50)%F
    then score + 30
    else if (of_Z 20 <=? payout_ratio)%F && (payout_ratio <=? of_Z 60)%F
    then score + 25
    else if (of_Z 10 <=? payout_ratio)%F && (payout_ratio <=? of_Z 70)%F
    then score + 20
    else if (payout_ratio >? of_Z 70)%F && (payout_ratio <=? of_Z 80)%F
    then score + 10
    else if (payout_ratio >? of_Z 0)%F then score + 5
    else score in
  let score :=
    if (div_yield >? of_Z 0)%F && (dps >? of_Z 0)%F then score + 20
    else score in
  Some (Z.min score 100).

Definition calculate_growth_score (data : record) : option Z :=
  roe ← _get_float data "roe" (of_Z 0);
  pe ← _get_float data "pe_ratio" (of_Z 20);
  div_yield ← _get_float data "dividend_yield" (of_Z 0);
  dps ← _get_float data "dividend_per_share" (of_Z 0);
  eps ← _get_float data "eps" (of_Z 0);
  payout_ratio ←
    (if (eps >? of_Z 0)%F && (dps >? of_Z 0)%F
     then py_div dps eps
     else Some (dec 5 1));
  let retention_ratio := (of_Z 1 - payout_ratio)%F in
  let sustainable_growth :=
    if (roe >? of_Z 0)%F then (roe * retention_ratio)%F else of_Z 0 in
  let score := 0 in
  let score :=
    if (roe >=? of_Z 25)%F then score + 35
    else if (roe >=? of_Z 20)%F then score + 30
    else if (roe >=? of_Z 15)%F then score + 25
    else if (roe >=? of_Z 12)%F then score + 20
    else if (roe >=? of_Z 10)%F then score + 15
    else if (roe >=? of_Z 5)%F then score + 10
    else score in
  let score :=
    if (sustainable_growth >=? of_Z 20)%F then score + 35
    else if (sustainable_growth >=? of_Z 15)%F then score + 30
    else if (sustainable_growth >=? of_Z 12)%F then score + 25
    else if (sustainable_growth >=? of_Z 10)%F then score + 20
    else if (sustainable_growth >=? of_Z 8)%F then score + 15
    else if (sustainable_growth >=? of_Z 5)%F then score + 10
    else score in
  peg_proxy ←
    (if (sustainable_growth >? of_Z 0)%F
     then py_div pe (fmax sustainable_growth (of_Z 5))
     else py_div pe (of_Z 10));
  let score :=
    if (peg_proxy <=? dec 5 1)%F then score + 30
    else if (peg_proxy <=? dec 10 1)%F then score + 25
    else if (peg_proxy <=? dec 15 1)%F then score + 20
    else if (peg_proxy <=? dec 20 1)%F then score + 15
    else if (peg_proxy <=? dec 25 1)%F then score + 10
    else score in
  Some (Z.min score 100).

Definition calculate_momentum_score (data : record) : option Z :=
  price ← _get_float data "last_traded_price" (of_Z 0);
  high_52 ← _get_float data "52_week_high" (price * dec 12 1)%F;
  low_52 ← _get_float data "52_week_low" (price * dec 8 1)%F;
  change_pct ← _get_float data "change_percent" (of_Z 0);
  let score := 0 in
  score ←
    (if (high_52 >? low_52)%F
     then
       q ← py_div (price - low_52)%F (high_52 - low_52)%F;
       let position := (q * of_Z 100)%F in
       Some (if (of_Z 40 <=? position)%F && (position <=? of_Z 60)%F
             then score + 50
             else if (of_Z 30 <=? position)%F && (position <=? of_Z 70)%F
             then score + 40
             else if (of_Z 20 <=? position)%F && (position <=? of_Z 80)%F
             then score + 30
             else if (position <=? of_Z 20)%F then score + 35
             else if (position >=? of_Z 80)%F then score + 20
             else score)
     else Some score);
  let score :=
    if (change_pct >=? of_Z 3)%F then score + 30
    else if (change_pct >=? of_Z 2)%F then score + 25
    else if (change_pct >=? of_Z 1)%F then score + 20
    else if (change_pct >=? of_Z 0)%F then score + 15
    else if (change_pct >=? of_Z (-1))%F then score + 10
    else if (change_pct >=? of_Z (-2))%F then score + 5
    else score in
  score ←
    (if (high_52 >? of_Z 0)%F
     then
       q ← py_div (high_52 - price)%F high_52;
       let discount := (q * of_Z 100)%F in
       Some (if (of_Z 20 <=? discount)%F && (discount <=? of_Z 40)%F
             then score + 20
             else if (of_Z 10 <=? discount)%F && (discount <=? of_Z 50)%F
             then score + 15
             else if (discount <? of_Z 10)%F then score + 10
             else if (discount >? of_Z 50)%F then score + 5
             else score)
     else Some score);
  Some (Z.min score 100).

(** The weights of the composite, in the insertion order of the dict. *)
Definition weights : list (string * float) :=
  [("value", dec 25 2); ("quality", dec 25 2); ("safety", dec 20 2);
   ("dividend", dec 15 2); ("growth", dec 10 2); ("momentum", dec 5 2)]%string.

(** [sum(...)] of the generator: the terms are produced and added from
    left to right, starting from 0, each addition rounding once (the
    plain loop of the language reference; CPython 3.12 and later
    compensate the rounding errors of a float sum). *)
Fixpoint sum_weighted (scores : gmap string Z) (ws : list (string * float))
    (acc : float) : option float :=
  match ws with
  | [] => Some acc
  | (key, weight) :: ws' =>
      s ← float_of_int (match scores !! key with Some v => v | None => 50 end);
      sum_weighted scores ws' (acc + s * weight)%F
  end.

Definition calculate_composite_score (scores : gmap string Z) : option Z :=
  composite ← sum_weighted scores weights (of_Z 0);
  py_int (fmin composite (of_Z 100)).

Definition analyze_company (data : record) : option InvestmentScores :=
  piotroski ← calculate_piotroski_f_score data;
  altman ← calculate_altman_z_score data;
  graham ← calculate_graham_number data;
  graham_upside ← calculate_graham_upside data (Some graham);
  magic_rank ← calculate_magic_formula_rank data;
  quality ← calculate_quality_score data;
  safety ← calculate_safety_score data;
  value ← calculate_value_score data;
  dividend ← calculate_dividend_score data;
  growth ← calculate_growth_score data;
  momentum ← calculate_momentum_score data;
  composite ←
    calculate_composite_score
      (<["value" := value]> (<["quality" := quality]>
       (<["safety" := safety]> (<["dividend" := dividend]>
        (<["growth" := growth]> (<["momentum" := momentum]> ∅))))));
  let grade := determine_grade composite piotroski altman in
  let recommendation :=
    generate_recommendation composite piotroski altman graham_upside in
  Some {| piotroski_f_score := piotroski;
          altman_z_score := altman;
          graham_number := graham;
          graham_upside := graham_upside;
          magic_formula_rank := magic_rank;
          quality_score := quality;
          safety_score := safety;
          value_score := value;
          dividend_score := dividend;
          growth_score := growth;
          momentum_score := momentum;
          composite_score := composite;
          investment_grade := grade;
          recommendation := recommendation |}.

End Analyzer.

(** ** [AdvancedMetricsCalculator]: earnings quality

    The calculator works on a whole table, column by column; every
    operation it uses is row-wise, so the embedding follows one row: a
    map from the columns of the table to the cells of the row.  A column
    that is read with [df[...]] and is not in the table raises
    [KeyError]; [df.get(..., 0)] falls back to 0.  Array division never
    raises. *)

Module Metrics.

Abbreviation row := (gmap string float).

(** [df.get(col, 0)] *)
Definition get0 (r : row) (col : string) : float :=
  match r !! col with Some x => x | None => of_Z 0 end.

(** [np.where(c, a, b)] on one row. *)
Definition np_where (c : bool) (a b : float) : float := if c then a else b.

(** The column [fcf_to_net_income], set by [_calculate_cashflow_metrics]. *)
Definition fcf_to_net_income (r : row) : option float :=
  net_profit ← r !! "net_profit";
  Some (np_where (get0 r "net_profit" >? of_Z 0)%F
          (div (get0 r "free_cash_flow") net_profit * of_Z 100)%F
          (of_Z 0)).

(** [_calculate_cashflow_metrics]: six columns are read with [df[...]],
    the others with [df.get(..., 0)]; the default of
    [df.get('shares_outstanding', ...)] is computed before the lookup, so
    it needs its two columns even when the column is there.  Cells are
    numeric. *)
Definition _calculate_cashflow_metrics (r : row) : option row :=
  revenue ← r !! "revenue";
  let r :=
    <["ocf_margin" :=
        np_where (get0 r "revenue" >? of_Z 0)%F
          (div (get0 r "operating_cash_flow") revenue * of_Z 100)%F
          (of_Z 0)]> r in
  total_debt ← r !! "total_debt";
  let r :=
    <["cf_to_debt" :=
        np_where (get0 r "total_debt" >? of_Z 0)%F
          (div (get0 r "operating_cash_flow") total_debt)
          (of_Z 999)]> r in
  market_cap ← r !! "market_cap";
  last_traded_price ← r !! "last_traded_price";
  let shares :=
    match r !! "shares_outstanding" with
    | Some s => s
    | None => div market_cap last_traded_price
    end in
  let r := <["cfps" := div (get0 r "operating_cash_flow") shares]> r in
  let r := <["fcfps" := div (get0 r "free_cash_flow") shares]> r in
  fcf ← fcf_to_net_income r;
  let r := <["fcf_to_net_income" := fcf]> r in
  total_assets ← r !! "total_assets";
  let r :=
    <["cash_roa" :=
        np_where (get0 r "total_assets" >? of_Z 0)%F
          (div (get0 r "operating_cash_flow") total_assets * of_Z 100)%F
          (of_Z 0)]> r in
  Some r.

(** The columns [_calculate_cashflow_metrics] reads with [df[...]]. *)
Definition cashflow_columns : list string :=
  ["revenue"; "total_debt"; "market_cap"; "last_traded_price"; "net_profit";
   "total_assets"].

Definition _calculate_quality_metrics (r : row) : option row :=
  total_assets ← r !! "total_assets";
  let accruals_ratio :=
    np_where (get0 r "total_assets" >? of_Z 0)%F
      (div (get0 r "net_profit" - get0 r "operating_cash_flow")%F
           total_assets)
      (of_Z 0) in
  let r := <["accruals_ratio" := accruals_ratio]> r in
  let r := <["sloan_ratio" := accruals_ratio]> r in
  let earnings_quality := 50 in
  fcf ← r !! "fcf_to_net_income";
  let earnings_quality :=
    if (fcf >? of_Z 80)%F then earnings_quality + 20 else earnings_quality in
  let earnings_quality :=
    if (fcf >? of_Z 100)%F then earnings_quality + 10 else earnings_quality in
  let earnings_quality :=
    if (abs accruals_ratio <? dec 5 2)%F then earnings_quality + 15
    else earnings_quality in
  let earnings_quality :=
    if (abs accruals_ratio <? dec 2 2)%F then earnings_quality + 5
    else earnings_quality in
  let earnings_quality := Z.max 0 (Z.min earnings_quality 100) in
  Some (<["earnings_quality" := of_Z earnings_quality]> r).

(** The row of the worked example, after the cash-flow step. *)
Definition example_row : option row :=
  let r : row :=
    <["operating_cash_flow" := of_Z 0]>
      (<["net_profit" := of_Z 0]> (<["total_assets" := of_Z 100]> ∅)) in
  fcf ← fcf_to_net_income r;
  Some (<["fcf_to_net_income" := fcf]> r).

(** The worked example through the quality step, and one of its columns. *)
Definition example_quality : option row :=
  r ← example_row; _calculate_quality_metrics r.

Definition example_column (col : string) : option float :=
  r ← example_quality; r !! col.

(** The sums the bonuses of the earnings-quality score can reach. *)
Definition earnings_quality_values : list Z :=
  [50; 65; 70; 80; 85; 90; 95; 100].

(** A row of a company that made a loss. *)
Definition loss_row : row :=
  <["revenue" := of_Z 900]> (<["total_debt" := of_Z 0]>
  (<["market_cap" := of_Z 5000]> (<["last_traded_price" := of_Z 25]>
  (<["net_profit" := of_Z (-40)]> (<["total_assets" := of_Z 1000]>
  (<["operating_cash_flow" := of_Z (-30)]>
  (<["free_cash_flow" := of_Z (-60)]> ∅))))))).

(** A row that has the two columns the quality step reads. *)
Definition cash_rich_row : row :=
  <["total_assets" := of_Z 100]> (<["fcf_to_net_income" := of_Z 90]> ∅).

End Metrics.

(** ** [StockScreener]

    A table is its list of column names and its rows, in index order;
    a row maps column names to float cells and a missing cell reads as
    NaN.  The columns criteria range over are numeric (float64). *)

Module Screener.

Abbreviation row := (gmap string float).

Record DataFrame : Type := {
  columns : list string;
  rows : list row
}.

Record ScreeningCriteria : Type := {
  name : string;
  column : string;
  operator : string;
  value : float;
  value2 : option float;
  weight : float
}.

(** [pd.DataFrame()] *)
Definition empty_frame : DataFrame := {| columns := []; rows := [] |}.

(** [df.empty]: no rows, or no columns. *)
Definition df_empty (df : DataFrame) : bool :=
  match columns df, rows df with
  | [], _ | _, [] => true
  | _, _ => false
  end.

Definition has_column (df : DataFrame) (col : string) : bool :=
  existsb (String.eqb col) (columns df).

Definition cell (r : row) (col : string) : float :=
  match r !! col with Some x => x | None => S754_nan end.

(** [df[col] <= v] where [v] may be [None]: a comparison with [None] is
    false in every row. *)
Definition le_opt (x : float) (v : option float) : bool :=
  match v with Some y => (x <=? y)%F | None => false end.

(** The mask of [_apply_criterion] on one row. *)
Definition mask (c : ScreeningCriteria) (r : row) : bool :=
  let x := cell r (column c) in
  let valid_mask := negb (is_nan x) in
  if String.eqb (operator c) "gt" then valid_mask && (x >? value c)%F
  else if String.eqb (operator c) "lt" then valid_mask && (x <? value c)%F
  else if String.eqb (operator c) "gte" then valid_mask && (x >=? value c)%F
  else if String.eqb (operator c) "lte" then valid_mask && (x <=? value c)%F
  else if String.eqb (operator c) "eq" then valid_mask && (x =? value c)%F
  else if String.eqb (operator c) "between"
  then valid_mask && (x >=? value c)%F && le_opt x (value2 c)
  else valid_mask.

Definition _apply_criterion (df : DataFrame) (criterion : ScreeningCriteria)
    : DataFrame :=
  let col := column criterion in
  if negb (has_column df col) then df
  else {| columns := columns df; rows := List.filter (mask criterion) (rows df) |}.

(** [screen] of a screener whose table is [df] ([None] when unset). *)
Definition screen (df : option DataFrame) (criteria : list ScreeningCriteria)
    : DataFrame :=
  match df with
  | None => empty_frame
  | Some df =>
      if df_empty df then empty_frame
      else fold_left _apply_criterion criteria df
  end.

(** The six operators of a criterion, and what each asks of a cell. *)
Inductive comparison_op : Type := Gt | Lt | Gte | Lte | Eq | Between.

Definition op_of_string (s : string) : option comparison_op :=
  if String.eqb s "gt" then Some Gt
  else if String.eqb s "lt" then Some Lt
  else if String.eqb s "gte" then Some Gte
  else if String.eqb s "lte" then Some Lte
  else if String.eqb s "eq" then Some Eq
  else if String.eqb s "between" then Some Between
  else None.

Definition holds (op : comparison_op) (x v : float) (v2 : option float)
    : bool :=
  match op with
  | Gt => (v <? x)%F
  | Lt => (x <? v)%F
  | Gte => (v <=? x)%F
  | Lte => (x <=? v)%F
  | Eq => (x =? v)%F
  | Between => (v <=? x)%F && le_opt x v2
  end.

(** A row satisfies a criterion of a table when the criterion names no
    column of the table (it is then skipped), or when the cell is not NaN
    and the comparison holds. *)
Definition satisfies (df : DataFrame) (r : row) (c : ScreeningCriteria)
    : bool :=
  if has_column df (column c)
  then match op_of_string (operator c) with
       | Some op =>
           negb (is_nan (cell r (column c)))
           && holds op (cell r (column c)) (value c) (value2 c)
       | None => false
       end
  else true.

Definition known_operator (c : ScreeningCriteria) : Prop :=
  is_Some (op_of_string (operator c)).

(** A table with one row and no column, as [pd.DataFrame(index=[0])]. *)
Definition degenerate_frame : DataFrame := {| columns := []; rows := [∅] |}.

(** A small table and two criteria on it. *)
Definition example_frame : DataFrame :=
  {| columns := ["eps"; "pe_ratio"];
     rows := [ <["eps" := of_Z 4]> (<["pe_ratio" := of_Z 9]> ∅);
               <["eps" := of_Z (-1)]> (<["pe_ratio" := of_Z 7]> ∅);
               <["eps" := of_Z 2]> (<["pe_ratio" := S754_nan]> ∅) ] |}.

Definition positive_eps : ScreeningCriteria :=
  {| name := "Positive EPS"; column := "eps"; operator := "gt";
     value := of_Z 0; value2 := None; weight := of_Z 1 |}.

Definition moderate_pe : ScreeningCriteria :=
  {| name := "Moderate P/E"; column := "pe_ratio"; operator := "between";
     value := of_Z 5; value2 := Some (of_Z 15); weight := of_Z 1 |}.

Definition on_absent_column : ScreeningCriteria :=
  {| name := "High yield"; column := "dividend_yield"; operator := "gte";
     value := of_Z 4; value2 := None; weight := of_Z 1 |}.

(** [ScreeningCriteria(name, column, operator, value)], the other two
    fields at their defaults [None] and [1.0]. *)
Definition new_criterion (name column operator : string) (value : float)
    : ScreeningCriteria :=
  {| name := name; column := column; operator := operator; value := value;
     value2 := None; weight := dec 10 1 |}.

(** [VALUATION_THRESHOLDS["peg_ratio_max"]] of [config/settings.py]. *)
Definition peg_ratio_max : float := dec 10 1.

(** [df[df[col] < v]]: the rows whose cell compares below [v]; a NaN cell
    does not. *)
Definition select_lt (df : DataFrame) (col : string) (v : float) : DataFrame :=
  {| columns := columns df;
     rows := List.filter (fun r => (cell r col <? v)%F) (rows df) |}.

(** The criteria of [screen_garp], and the strategy: the PEG filter is
    applied when the screened table has the column. *)
Definition garp_criteria : list ScreeningCriteria :=
  [new_criterion "Positive EPS" "eps" "gt" (of_Z 0);
   new_criterion "Good ROE" "roe" "gt" (of_Z 10);
   new_criterion "P/E not too high" "pe_ratio" "lt" (of_Z 25)].

Definition screen_garp (df : option DataFrame) : DataFrame :=
  let result := screen df garp_criteria in
  if has_column result "peg_ratio"
  then select_lt result "peg_ratio" peg_ratio_max
  else result.

End Screener.

(** ** Quantities used to state and prove the properties *)

(** What coercion accepts without raising: a binary64 float, an integer
    within the float range, or [None]. *)
Definition numeric_value (v : py_value) : Prop :=
  match v with
  | PyFloat x => valid x = true
  | PyInt n => is_finite (of_Z n) = true
  | PyNone => True
  | PyStr _ | PyOther => False
  end.

Definition numeric_record (data : record) : Prop :=
  forall k v, data !! k = Some v -> numeric_value v.

(** The fields the six sub-score functions read. *)
Definition score_fields : list string :=
  ["roe"; "roa"; "gross_margin"; "net_margin"; "asset_turnover";
   "debt_equity"; "current_ratio"; "eps"; "pe_ratio"; "pb_ratio";
   "dividend_yield"; "dividend_per_share"; "last_traded_price";
   "52_week_high"; "52_week_low"; "change_percent"]%string.

(** A value on which [float] does not raise [OverflowError]: anything but
    an integer beyond the float range.  A float is a binary64, and so is
    what [float] reads from a string. *)
Definition coercible (float_of_str : string -> option float)
    (v : py_value) : Prop :=
  match v with
  | PyInt n => is_finite (of_Z n) = true
  | PyFloat x => valid x = true
  | PyStr s =>
      forall x, float_of_str (str_remove "%" (str_remove "," s)) = Some x ->
                valid x = true
  | PyNone | PyOther => True
  end.

(** Every score field that is present is coercible; the other fields of
    the record are not looked at. *)
Definition score_fields_coercible (float_of_str : string -> option float)
    (data : record) : Prop :=
  forall k v, In k score_fields -> data !! k = Some v ->
              coercible float_of_str v.

Definition in_range (r : option Z) : Prop :=
  exists n, r = Some n /\ 0 <= n <= 100.

(** The keyword arguments [analyze_company] passes to the composite. *)
Definition score_kwargs (value quality safety dividend growth momentum : Z)
    : gmap string Z :=
  <["value" := value]> (<["quality" := quality]>
   (<["safety" := safety]> (<["dividend" := dividend]>
    (<["growth" := growth]> (<["momentum" := momentum]> ∅))))).

(** Twenty times the exact weighted sum
    0.25 v + 0.25 q + 0.20 s + 0.15 d + 0.10 g + 0.05 m. *)
Definition weighted_sum20 (v q s d g m : Z) : Z :=
  5 * v + 5 * q + 4 * s + 3 * d + 2 * g + m.

(** An integer [c] within 1e-6 of the weighted sum [k20 / 20]. *)
Definition within_1e6 (c k20 : Z) : Prop :=
  Z.abs (20 * c - k20) * 1000000 <= 20.

(** A field that coercion replaces by its default: absent, [None], or a
    string the built-in [float] rejects once [,] and [%] are removed. *)
Definition defaulted (float_of_str : string -> option float)
    (o : option py_value) : Prop :=
  match o with
  | None | Some PyNone => True
  | Some (PyStr s) =>
      float_of_str (str_remove "%" (str_remove "," s)) = None
  | Some (PyFloat _) | Some (PyInt _) | Some PyOther => False
  end.

(** Every optional field, that is every field but the symbol, is
    defaulted. *)
Definition all_defaulted (float_of_str : string -> option float)
    (data : record) : Prop :=
  forall k, k <> "symbol"%string -> defaulted float_of_str (data !! k).

(** The record [{"symbol": "TEST"}]. *)
Definition test_record : record := <["symbol" := PyStr "TEST"]> ∅.

(** A record with P/E 8, P/B 0.9 and no dividend. *)
Definition value_example : record :=
  <["pe_ratio" := PyInt 8]> (<["pb_ratio" := PyFloat (dec 9 1)]>
  (<["dividend_yield" := PyInt 0]> ∅)).

(** A record whose EPS is the integer 2^1024, beyond the float range. *)
Definition huge_record : record := <["eps" := PyInt (2 ^ 1024)]> ∅.

(** A record with EPS 10 and NAV 40. *)
Definition graham_example : record :=
  <["eps" := PyInt 10]> (<["nav" := PyInt 40]> ∅).

(** What the analysis of a record of defaults produces. *)
Definition default_scores : InvestmentScores :=
  {| piotroski_f_score := 0;
     altman_z_score := of_Z 3;
     graham_number := of_Z 0;
     graham_upside := of_Z 0;
     magic_formula_rank := 77;
     quality_score := 0;
     safety_score := 30;
     value_score := 10;
     dividend_score := 0;
     growth_score := 15;
     momentum_score := 15;
     composite_score := 10;
     investment_grade := "F";
     recommendation := "Avoid - Weak Financials" |}.

(** [float] on the strings of the example below: ["12.5"] is read, every
    other string is rejected. *)
Definition float_of_str_example (s : string) : option float :=
  if String.eqb s "12.5" then Some (dec 125 1) else None.

(** A record as a listing gives it: a symbol, a P/E written as a string
    with a percent sign, a field that holds an object, and a share count
    beyond the float range that no score reads. *)
Definition listed_record : record :=
  <["symbol" := PyStr "JKH.N0000"]> (<["pe_ratio" := PyStr "12.5%"]>
  (<["pb_ratio" := PyFloat (dec 9 1)]> (<["eps" := PyInt 5]>
  (<["roe" := PyOther]> (<["dividend_yield" := PyNone]>
  (<["shares" := PyInt (2 ^ 1024)]>
  (<["last_traded_price" := PyFloat (dec 1005 1)]> ∅))))))).

(** The real number a finite float stands for. *)
Definition value (x : float) : R :=
  match x with
  | S754_finite s m e => (IZR (cond_Zopp s (Zpos m)) * powerRZ 2 e)%R
  | _ => 0%R
  end.

(** A positive float with a full mantissa of 53 bits: among the binary64
    numbers, the positive normal ones (no overflow, no underflow). *)
Definition normal (x : float) : bool :=
  match x with
  | S754_finite false m _ => 2 ^ 52 <=? Zpos m
  | _ => false
  end.

(** [g] is a positive normal number within one unit in its last place of
    the square root of the positive [x]: with [u] that unit,
    [(g - u)^2 <= x <= (g + u)^2], compared exactly on integers. *)
Definition root_within_ulp (x g : float) : bool :=
  match x, g with
  | S754_finite false mx ex, S754_finite false mg eg =>
      let e := Z.min ex (2 * eg) in
      (2 ^ 52 <=? Zpos mg) &&
      ((Zpos mg - 1) ^ 2 * 2 ^ (2 * eg - e) <=? Zpos mx * 2 ^ (ex - e)) &&
      (Zpos mx * 2 ^ (ex - e) <=? (Zpos mg + 1) ^ 2 * 2 ^ (2 * eg - e))
  | _, _ => false
  end.

(** The binary64 nearest to [n / 100] for [n >= 0]: what [round(x, 2)]
    reads back from the decimal it has rounded to. *)
Definition hundredths (n : Z) : float :=
  match n with
  | Zpos p => div (S754_finite false p 0) (of_Z 100)
  | _ => zero
  end.

(** An EPS for which [22.5 * EPS] is the float 73.18802500000001. *)
Definition last_place_eps : float :=
  div (of_Z 7318802500000001) (of_Z 2250000000000000).

(** A record with that EPS and a NAV of 1. *)
Definition last_place_record : record :=
  <["eps" := PyFloat last_place_eps]> (<["nav" := PyInt 1]> ∅).

Definition fexp_ok (m e : Z) : Prop := e <= fexp prec emax (Zdigits2 m + e).

(** The float a rounding step builds from its final mantissa and
    exponent. *)
Definition result_of (s : bool) (m e : Z) : float :=
  match m with
  | Z0 => S754_zero s
  | Zpos p =>
      if e <=? emax - prec then S754_finite s p e else S754_infinity s
  | Zneg _ => S754_nan
  end.

Definition nonzero (x : float) : bool :=
  match x with S754_finite _ _ _ | S754_infinity _ => true | _ => false end.

Definition nonneg (x : float) : bool :=
  match x with
  | S754_zero _ | S754_finite false _ _ => true
  | _ => false
  end.

(** The exact value of a float in units of 2^-1074, the spacing of the
    smallest binary64 numbers: an integer for every valid float. *)
Definition scaled (x : float) : Z :=
  match x with
  | S754_finite s m e => cond_Zopp s (Zpos m * 2 ^ (e + 1074))
  | _ => 0
  end.

(** The scaled value of 1.0, and of 2^-44. *)
Definition one_scaled : Z := 2 ^ 1074.
Definition slack : Z := 2 ^ 1030.

Definition range (n : nat) : list Z := map Z.of_nat (seq 0 n).

(** One weighted term [s * w] of the composite, for a sub-score [s]: a
    valid non-negative float whose value is [c * s / 20] up to 2^-44/20,
    where [c / 20] is the decimal weight that [w] approximates. *)
Definition term_ok (w : float) (c s : Z) : bool :=
  let t := (of_Z s * w)%F in
  is_finite (of_Z s) && valid t && nonneg t
  && (c * s * one_scaled - slack <=? 20 * scaled t)
  && (20 * scaled t <=? c * s * one_scaled + slack).

Definition twentieths : list (float * Z) :=
  [(dec 25 2, 5); (dec 25 2, 5); (dec 20 2, 4); (dec 15 2, 3);
   (dec 10 2, 2); (dec 5 2, 1)].

(** A result that lies between two bounds when there is one. *)
Definition within (lo hi : Z) (r : option Z) : Prop :=
  match r with Some n => lo <= n <= hi | None => True end.

(** The letters [determine_grade] can produce, and the seven labels of
    [generate_recommendation]. *)
Definition grade_letters : list string :=
  ["A"; "B"; "C"; "D"; "E"; "F"]%string.

Definition recommendations : list string :=
  ["Avoid - High Bankruptcy Risk"; "Avoid - Weak Financials"; "Strong Buy";
   "Buy"; "Hold"; "Weak Hold"; "Sell / Avoid"]%string.

(** [scores.get(key, 50)] *)
Definition score_of (scores : gmap string Z) (key : string) : Z :=
  match scores !! key with Some v => v | None => 50 end.

(** The field [key] of two records, coerced with the default [d]: the
    value of the first record is at most the value of the second. *)
Definition field_le (float_of_str : string -> option float)
    (data1 data2 : record) (key : string) (d : float) : Prop :=
  exists x y, _get_float float_of_str data1 key d = Some x /\
              _get_float float_of_str data2 key d = Some y /\
              (x <=? y)%F = true.

(** Two results, the first at most the second. *)
Definition both_le (a b : option Z) : Prop :=
  exists n1 n2, a = Some n1 /\ b = Some n2 /\ n1 <= n2.

(** Two companies, the second with more debt, less liquidity and lower
    earnings than the first. *)
Definition low_debt_record : record :=
  <["debt_equity" := PyFloat (dec 2 1)]> (<["current_ratio" := PyInt 2]>
  (<["eps" := PyInt 6]> (<["roe" := PyInt 22]> ∅))).

Definition high_debt_record : record :=
  <["debt_equity" := PyFloat (dec 12 1)]> (<["current_ratio" := PyInt 1]>
  (<["eps" := PyInt 1]> (<["roe" := PyInt 8]> ∅))).

(** A record whose ROE is NaN, as a missing cell of a table is. *)
Definition nan_roe_record : record := <["roe" := PyFloat S754_nan]> ∅.

(** A record without assets. *)
Definition distressed_record : record :=
  <["total_assets" := PyInt 0]> (<["revenue" := PyInt 500]> ∅).

(** A profitable, cheap, dividend-paying company with little debt. *)
Definition strong_record : record :=
  <["eps" := PyInt 10]> (<["nav" := PyInt 40]>
  (<["last_traded_price" := PyInt 50]> (<["pe_ratio" := PyInt 5]>
  (<["pb_ratio" := PyFloat (dec 5 1)]> (<["dividend_yield" := PyInt 8]>
  (<["dividend_per_share" := PyInt 4]> (<["roe" := PyInt 25]>
  (<["roa" := PyInt 15]> (<["gross_margin" := PyInt 40]>
  (<["net_margin" := PyInt 20]> (<["asset_turnover" := PyFloat (dec 15 1)]>
  (<["debt_equity" := PyFloat (dec 2 1)]>
  (<["current_ratio" := PyFloat (dec 25 1)]>
  (<["operating_cash_flow" := PyInt 100]> ∅)))))))))))))).

(** * Properties *)

(** ** Binary64: digits, rounding and exact values *)

(** *** Number of binary digits *)

Lemma digits2_pos_log2 (p : positive) :
  Zpos (digits2_pos p) = Z.log2 (Zpos p) + 1.
Proof.
  induction p as [p IH|p IH|]; simpl digits2_pos; try reflexivity.
  - rewrite Pos2Z.inj_succ, IH. 
    change (Z.pos p~1) with (2 * Z.pos p + 1).
    rewrite Z.log2_succ_double by lia. lia.
  - rewrite Pos2Z.inj_succ, IH.
    change (Z.pos p~0) with (2 * Z.pos p).
    rewrite Z.log2_double by lia. lia.
Qed.

Lemma Zdigits2_log2 (m : Z) : 0 < m -> Zdigits2 m = Z.log2 m + 1.
Proof. destruct m; try lia. intros _. apply digits2_pos_log2. Qed.

Lemma Zdigits2_bounds (m : Z) :
  0 < m -> 2 ^ (Zdigits2 m - 1) <= m < 2 ^ Zdigits2 m.
Proof.
  intros Hm. rewrite Zdigits2_log2 by assumption.
  replace (Z.log2 m + 1 - 1) with (Z.log2 m) by lia.
  replace (Z.log2 m + 1) with (Z.succ (Z.log2 m)) by lia.
  now apply Z.log2_spec.
Qed.

Lemma Zdigits2_unique (m k : Z) :
  2 ^ (k - 1) <= m < 2 ^ k -> 0 < m -> Zdigits2 m = k.
Proof.
  intros H Hm. rewrite Zdigits2_log2 by assumption.
  assert (0 < k).
  { destruct (Z.ltb_spec 0 k); [assumption|].
    assert (2 ^ k <= 2 ^ 0) by (apply Z.pow_le_mono_r; lia). simpl in *. lia. }
  rewrite (Z.log2_unique m (k - 1)); try lia.
  replace (Z.succ (k - 1)) with k by lia. assumption.
Qed.

(** *** Right shifts of the rounding step *)

Lemma shr_1_m (mrs : shr_record) :
  0 <= shr_m mrs -> shr_m (shr_1 mrs) = shr_m mrs / 2.
Proof.
  destruct mrs as [m r s]. simpl. intros Hm.
  destruct m as [|[p|p|]|p]; cbn [shr_1 shr_m]; try reflexivity; try lia.
  - apply (Z.div_unique _ _ _ 1); lia.
  - apply (Z.div_unique _ _ _ 0); lia.
Qed.

Lemma iter_shr_1_m (p : positive) : forall mrs : shr_record,
  0 <= shr_m mrs ->
  shr_m (SpecFloat.iter_pos shr_1 p mrs) = shr_m mrs / 2 ^ Zpos p.
Proof.
  assert (Hnn : forall m k, 0 <= m -> 0 <= m / 2 ^ k).
  { intros m k Hm. apply Z_div_nonneg_nonneg; [assumption|].
    apply Z.pow_nonneg; lia. }
  induction p as [p IH|p IH|]; intros mrs Hm; cbn [SpecFloat.iter_pos].
  - assert (H1 : 0 <= shr_m (shr_1 mrs))
      by (rewrite shr_1_m by assumption; apply Z.div_pos; lia).
    rewrite IH by (rewrite IH by assumption; auto).
    rewrite IH, shr_1_m by assumption.
    rewrite !Z.div_div by lia.
    f_equal. replace (Z.pos p~1) with (Z.pos p + Z.pos p + 1) by lia.
    rewrite !Z.pow_add_r by lia. ring.
  - rewrite IH by (rewrite IH by assumption; auto).
    rewrite IH by assumption.
    rewrite !Z.div_div by lia.
    f_equal. replace (Z.pos p~0) with (Z.pos p + Z.pos p) by lia.
    rewrite !Z.pow_add_r by lia. ring.
  - now rewrite shr_1_m.
Qed.

Lemma fexp_eq (e : Z) : fexp prec emax e = Z.max (e - 53) (-1074).
Proof. reflexivity. Qed.

Lemma shr_record_of_loc_m (m : Z) (l : location) :
  shr_m (shr_record_of_loc m l) = m.
Proof. now destruct l as [|[]]. Qed.

Lemma shr_fexp_spec (m e : Z) (l : location) :
  0 <= m ->
  let n := Z.max 0 (fexp prec emax (Zdigits2 m + e) - e) in
  shr_m (fst (shr_fexp prec emax m e l)) = m / 2 ^ n /\
  snd (shr_fexp prec emax m e l) = e + n.
Proof.
  intros Hm n. unfold shr_fexp, shr. subst n.
  destruct (fexp prec emax (Zdigits2 m + e) - e) as [|p|p]; cbn [fst snd].
  - rewrite shr_record_of_loc_m, Z.div_1_r. split; [reflexivity|lia].
  - rewrite iter_shr_1_m by (now rewrite shr_record_of_loc_m).
    rewrite shr_record_of_loc_m. split; [f_equal; f_equal; lia|lia].
  - rewrite shr_record_of_loc_m, Z.div_1_r. split; [reflexivity|lia].
Qed.

Lemma round_nearest_even_cases (mx : Z) (lx : location) :
  round_nearest_even mx lx = mx \/ round_nearest_even mx lx = mx + 1.
Proof.
  destruct lx as [|[]]; simpl; auto. destruct (Z.even mx); auto.
Qed.

Lemma Zdigits2_pos (m : Z) : 0 < m -> 0 < Zdigits2 m.
Proof. destruct m; simpl; lia. Qed.

Lemma Zdigits2_div_pow2 (m n : Z) :
  0 < m -> 0 <= n < Zdigits2 m ->
  0 < m / 2 ^ n /\ Zdigits2 (m / 2 ^ n) = Zdigits2 m - n.
Proof.
  intros Hm Hn. pose proof (Zdigits2_bounds m Hm) as [Hlo Hhi].
  assert (Hp : 0 < 2 ^ n) by (apply Z.pow_pos_nonneg; lia).
  assert (Hq : 2 ^ (Zdigits2 m - n - 1) <= m / 2 ^ n < 2 ^ (Zdigits2 m - n)).
  { split.
    - apply Z.div_le_lower_bound; [assumption|].
      rewrite <- Z.pow_add_r by lia.
      now replace (n + (Zdigits2 m - n - 1)) with (Zdigits2 m - 1) by lia.
    - apply Z.div_lt_upper_bound; [assumption|].
      rewrite <- Z.pow_add_r by lia.
      now replace (n + (Zdigits2 m - n)) with (Zdigits2 m) by lia. }
  assert (0 < 2 ^ (Zdigits2 m - n - 1)) by (apply Z.pow_pos_nonneg; lia).
  split; [lia|]. apply Zdigits2_unique; [assumption|lia].
Qed.

Lemma div_pow2_small (m n : Z) :
  0 < m -> Zdigits2 m <= n -> m / 2 ^ n = 0.
Proof.
  intros Hm Hn. pose proof (Zdigits2_bounds m Hm) as [_ Hhi].
  apply Z.div_small. split; [lia|].
  apply Z.lt_le_trans with (1 := Hhi).
  apply Z.pow_le_mono_r; lia.
Qed.

Lemma Zdigits2_succ (m : Z) :
  0 < m ->
  Zdigits2 (m + 1) = Zdigits2 m \/
  (m + 1 = 2 ^ Zdigits2 m /\ Zdigits2 (m + 1) = Zdigits2 m + 1).
Proof.
  intros Hm. pose proof (Zdigits2_bounds m Hm) as [Hlo Hhi].
  pose proof (Zdigits2_pos m Hm) as Hd.
  destruct (Z.eq_dec (m + 1) (2 ^ Zdigits2 m)) as [E|NE].
  - right. split; [assumption|]. apply Zdigits2_unique; [|lia].
    replace (Zdigits2 m + 1 - 1) with (Zdigits2 m) by lia.
    rewrite Z.pow_add_r by lia. change (2 ^ 1) with 2. lia.
  - left. apply Zdigits2_unique; lia.
Qed.

Lemma Zdigits2_pow2 (k : Z) : 0 <= k -> Zdigits2 (2 ^ k) = k + 1.
Proof.
  intros Hk. assert (0 < 2 ^ k) by (apply Z.pow_pos_nonneg; lia).
  apply Zdigits2_unique; [|assumption].
  replace (k + 1 - 1) with k by lia.
  rewrite Z.pow_add_r by lia. change (2 ^ 1) with 2. lia.
Qed.

(** *** The rounding step: shift, round to nearest even, shift again *)

Lemma binary_round_aux_unfold (s : bool) (m e : Z) (l : location) :
  0 <= m ->
  let n1 := Z.max 0 (fexp prec emax (Zdigits2 m + e) - e) in
  let m1 := m / 2 ^ n1 in
  let e1 := e + n1 in
  exists m2,
    (m2 = m1 \/ m2 = m1 + 1) /\
    let n2 := Z.max 0 (fexp prec emax (Zdigits2 m2 + e1) - e1) in
    binary_round_aux prec emax s m e l =
      match m2 / 2 ^ n2 with
      | Z0 => S754_zero s
      | Zpos p =>
          if e1 + n2 <=? emax - prec then S754_finite s p (e1 + n2)
          else S754_infinity s
      | Zneg _ => S754_nan
      end.
Proof.
  intros Hm n1 m1 e1. unfold binary_round_aux.
  pose proof (shr_fexp_spec m e l Hm) as [A1 B1].
  destruct (shr_fexp prec emax m e l) as [mrs1 e1'].
  cbn [fst snd] in A1, B1. fold n1 in A1, B1. fold m1 in A1. fold e1 in B1.
  subst e1'.
  set (m2 := round_nearest_even (shr_m mrs1) (loc_of_shr_record mrs1)).
  assert (Hm1 : 0 <= m1).
  { apply Z_div_nonneg_nonneg; [assumption|apply Z.pow_nonneg; lia]. }
  assert (Hm2 : m2 = m1 \/ m2 = m1 + 1).
  { subst m2. rewrite <- A1. apply round_nearest_even_cases. }
  exists m2. split; [assumption|].
  pose proof (shr_fexp_spec m2 e1 loc_Exact ltac:(lia)) as [A2 B2].
  destruct (shr_fexp prec emax m2 e1 loc_Exact) as [mrs2 e2].
  cbn [fst snd] in A2, B2. cbv zeta. rewrite A2, B2. reflexivity.
Qed.

(** Rounding a positive integer mantissa that carries enough digits: the
    result mantissa is canonical at its exponent, and is within one unit
    of that exponent from the exact value. *)
Lemma binary_round_aux_spec (s : bool) (m e : Z) (l : location) :
  0 < m -> fexp_ok m e ->
  exists m3 e3,
    binary_round_aux prec emax s m e l = result_of s m3 e3 /\
    0 <= m3 /\
    (0 < m3 -> fexp prec emax (Zdigits2 m3 + e3) = e3) /\
    e <= e3 <= fexp prec emax (Zdigits2 m + e) + 1 /\
    - 2 ^ (e3 - e) <= m3 * 2 ^ (e3 - e) - m <= 2 ^ (e3 - e).
Proof.
  intros Hm Hok. unfold fexp_ok in Hok.
  destruct (binary_round_aux_unfold s m e l ltac:(lia)) as (m2 & Hm2 & ->).
  cbv zeta. fold (result_of s).
  set (d := Zdigits2 m) in *.
  set (n1 := Z.max 0 (fexp prec emax (d + e) - e)) in *.
  set (e1 := e + n1) in *.
  set (m1 := m / 2 ^ n1) in *.
  assert (Hd : 0 < d) by (now apply Zdigits2_pos).
  set (n2 := Z.max 0 (fexp prec emax (Zdigits2 m2 + e1) - e1)).
  exists (m2 / 2 ^ n2), (e1 + n2).
  split; [reflexivity|].
  assert (He1 : e1 = fexp prec emax (d + e)) by (subst e1 n1; lia).
  assert (Hn1 : 0 <= n1) by (subst n1; lia).
  assert (HP : 0 < 2 ^ n1) by (apply Z.pow_pos_nonneg; lia).
  pose proof (Z.div_mod m (2 ^ n1) ltac:(lia)) as Hdm.
  pose proof (Z.mod_pos_bound m (2 ^ n1) HP) as Hr.
  fold m1 in Hdm.
  rewrite fexp_eq in He1, Hok. rewrite !fexp_eq.
  assert (H1 : (m1 = 0 /\ e1 = -1074) \/
               (0 < m1 /\ Z.max (Zdigits2 m1 + e1 - 53) (-1074) = e1)).
  { destruct (Z.lt_ge_cases n1 d) as [Hlt|Hge].
    - right. destruct (Zdigits2_div_pow2 m n1 Hm ltac:(lia)) as [P Q].
      fold m1 in P, Q. split; [assumption|]. rewrite Q. fold d. lia.
    - left. split; [apply div_pow2_small; fold d; lia|]. lia. }
  assert (Hemin : -1074 <= e1) by lia.
  replace (e1 + n2 - e) with (n1 + n2) by lia.
  replace (Z.max (d + e - 53) (-1074)) with e1 by lia.
  rewrite (Z.pow_add_r 2 n1 n2) by (subst n2; lia).
  subst n2. rewrite !fexp_eq.
  set (P := 2 ^ n1) in *. set (r := m mod P) in *.
  assert (He : e <= e1) by lia.
  clearbody m1 e1 P r. clear He1 Hok Hd Hn1 n1 d.
  destruct H1 as [[-> ->]|[Hpos Hc]].
  - destruct Hm2 as [->| ->].
    + change (Z.max 0 (Z.max (Zdigits2 0 + -1074 - 53) (-1074) - -1074)) with 0.
      change (0 / 2 ^ 0) with 0. rewrite Z.pow_0_r, Z.mul_1_r.
      repeat split; lia.
    + change (Z.max 0 (Z.max (Zdigits2 (0 + 1) + -1074 - 53) (-1074) - -1074))
        with 0.
      change ((0 + 1) / 2 ^ 0) with 1. rewrite Z.pow_0_r, Z.mul_1_r.
      repeat split; lia.
  - pose proof (Zdigits2_pos m1 Hpos) as Hd1.
    assert (Hcase : (Zdigits2 m2 = Zdigits2 m1 /\ (m2 = m1 \/ m2 = m1 + 1)) \/
              (m2 = 2 ^ Zdigits2 m1 /\ m2 = m1 + 1
               /\ Zdigits2 m2 = Zdigits2 m1 + 1)).
    { destruct Hm2 as [->| ->]; [left; auto|].
      destruct (Zdigits2_succ m1 Hpos) as [?|[? ?]]; [left; auto|right; auto]. }
    destruct Hcase as [[Hsame Hm2']|(Hpow & Hm2' & Hnext)].
    + rewrite Hsame.
      replace (Z.max 0 (Z.max (Zdigits2 m1 + e1 - 53) (-1074) - e1)) with 0 by lia.
      rewrite Z.pow_0_r, Z.div_1_r, Hsame, Z.add_0_r, Z.mul_1_r.
      repeat split; lia.
    + rewrite Hnext.
      destruct (Z.eq_dec (Zdigits2 m1) 53) as [E53|N53].
      * replace (Z.max 0 (Z.max (Zdigits2 m1 + 1 + e1 - 53) (-1074) - e1))
          with 1 by lia.
        rewrite E53 in Hpow. rewrite Hpow.
        change (2 ^ 53 / 2 ^ 1) with (2 ^ 52).
        rewrite Zdigits2_pow2 by lia. change (2 ^ 1) with 2.
        change (2 ^ 53) with (2 ^ 52 * 2) in Hpow.
        repeat split; lia.
      * replace (Z.max 0 (Z.max (Zdigits2 m1 + 1 + e1 - 53) (-1074) - e1))
          with 0 by lia.
        rewrite Z.pow_0_r, Z.div_1_r, Hnext, Z.add_0_r, Z.mul_1_r.
        repeat split; lia.
Qed.

Lemma result_of_valid (s : bool) (m e : Z) :
  (0 < m -> fexp prec emax (Zdigits2 m + e) = e) ->
  valid (result_of s m e) = true.
Proof.
  intros H. destruct m as [|p|p]; try reflexivity. unfold result_of.
  destruct (Z.leb_spec e (emax - prec)) as [Hle|Hgt]; [|reflexivity].
  unfold valid, valid_binary, bounded, canonical_mantissa.
  change (Zpos (digits2_pos p)) with (Zdigits2 (Zpos p)).
  rewrite H, Z.eqb_refl by lia. simpl. now apply Z.leb_le.
Qed.

Lemma binary_round_aux_valid (s : bool) (m e : Z) (l : location) :
  0 < m -> fexp_ok m e -> valid (binary_round_aux prec emax s m e l) = true.
Proof.
  intros Hm Hok.
  destruct (binary_round_aux_spec s m e l Hm Hok) as (m3 & e3 & -> & _ & Hc & _).
  now apply result_of_valid.
Qed.

Lemma nonzero_eqb_zero (x : float) : nonzero x = true -> (x =? zero)%F = false.
Proof. destruct x as [s|[]| |[] m e]; try discriminate; reflexivity. Qed.

Lemma binary_round_aux_nonzero (s : bool) (m e : Z) (l : location) :
  0 < m -> -1074 <= e -> nonzero (binary_round_aux prec emax s m e l) = true.
Proof.
  intros Hm He.
  destruct (binary_round_aux_unfold s m e l ltac:(lia)) as (m2 & Hm2 & ->).
  cbv zeta. rewrite !fexp_eq. rewrite fexp_eq in Hm2.
  set (n1 := Z.max 0 (Z.max (Zdigits2 m + e - 53) (-1074) - e)) in *.
  pose proof (Zdigits2_pos m Hm) as Hd.
  destruct (Zdigits2_div_pow2 m n1 Hm ltac:(lia)) as [Hm1 _].
  set (m1 := m / 2 ^ n1) in *. set (e1 := e + n1) in *.
  assert (He1 : -1074 <= e1) by lia.
  assert (Hm2' : 0 < m2) by lia.
  clearbody m1 e1. clear Hm2 Hm1 n1 Hd Hm He.
  set (n2 := Z.max 0 (Z.max (Zdigits2 m2 + e1 - 53) (-1074) - e1)).
  pose proof (Zdigits2_pos m2 Hm2') as Hd2.
  destruct (Zdigits2_div_pow2 m2 n2 Hm2' ltac:(lia)) as [Hm3 _].
  destruct (m2 / 2 ^ n2) as [|p|p]; try lia.
  now destruct (e1 + n2 <=? emax - prec).
Qed.

(** *** Alignment, and the validity of rounded results *)

Lemma pos_iter_xO (m d : positive) :
  Zpos (Pos.iter xO m d) = Zpos m * 2 ^ Zpos d.
Proof.
  induction d as [|d IH] using Pos.peano_ind.
  - simpl. lia.
  - rewrite Pos.iter_succ, Pos2Z.inj_xO, IH, Pos2Z.inj_succ, Z.pow_succ_r by lia.
    ring.
Qed.

Lemma shl_align_spec (mx : positive) (ex ex' : Z) :
  let k := Z.max 0 (ex - ex') in
  Zpos (fst (shl_align mx ex ex')) = Zpos mx * 2 ^ k /\
  snd (shl_align mx ex ex') = ex - k.
Proof.
  unfold shl_align. destruct (ex' - ex) as [|d|d] eqn:E; cbn [fst snd].
  - replace (Z.max 0 (ex - ex')) with 0 by lia. rewrite Z.pow_0_r. lia.
  - replace (Z.max 0 (ex - ex')) with 0 by lia. rewrite Z.pow_0_r. lia.
  - replace (Z.max 0 (ex - ex')) with (Zpos d) by lia.
    rewrite pos_iter_xO. lia.
Qed.

Lemma Zdigits2_mul_pow2 (m k : Z) :
  0 < m -> 0 <= k -> Zdigits2 (m * 2 ^ k) = Zdigits2 m + k.
Proof.
  intros Hm Hk. pose proof (Zdigits2_bounds m Hm) as [Hlo Hhi].
  pose proof (Zdigits2_pos m Hm) as Hd.
  assert (Hp : 0 < 2 ^ k) by (apply Z.pow_pos_nonneg; lia).
  apply Zdigits2_unique; [|nia].
  replace (Zdigits2 m + k - 1) with (Zdigits2 m - 1 + k) by lia.
  rewrite !Z.pow_add_r by lia. nia.
Qed.

Lemma binary_round_valid (s : bool) (m : positive) (e : Z) :
  valid (binary_round prec emax s m e) = true.
Proof.
  unfold binary_round.
  pose proof (shl_align_spec m e (fexp prec emax (Zpos (digits2_pos m) + e)))
    as [A B].
  destruct (shl_align m e (fexp prec emax (Zpos (digits2_pos m) + e)))
    as [mz ez]. cbn [fst snd] in A, B. cbv zeta in A, B.
  apply binary_round_aux_valid; [lia|].
  unfold fexp_ok. rewrite A, Zdigits2_mul_pow2 by lia.
  change (Zdigits2 (Zpos m)) with (Zpos (digits2_pos m)).
  rewrite !fexp_eq in *. lia.
Qed.

Lemma binary_round_nonzero (s : bool) (m : positive) (e : Z) :
  -1074 <= e -> nonzero (binary_round prec emax s m e) = true.
Proof.
  intros He. unfold binary_round.
  pose proof (shl_align_spec m e (fexp prec emax (Zpos (digits2_pos m) + e)))
    as [A B].
  destruct (shl_align m e (fexp prec emax (Zpos (digits2_pos m) + e)))
    as [mz ez]. cbn [fst snd] in A, B. cbv zeta in A, B.
  apply binary_round_aux_nonzero; [lia|].
  rewrite fexp_eq in B. lia.
Qed.

Lemma of_Z_valid (n : Z) : valid (of_Z n) = true.
Proof.
  unfold of_Z, binary_normalize.
  destruct n; [reflexivity|apply binary_round_valid..].
Qed.

(** What [valid] says of a finite binary64. *)
Lemma bounded_inv (m : positive) (e : Z) :
  bounded prec emax m e = true ->
  -1074 <= e <= 971 /\ Zpos (digits2_pos m) <= 53 /\
  (e = -1074 \/ Zpos (digits2_pos m) = 53).
Proof.
  unfold bounded, canonical_mantissa. rewrite fexp_eq.
  intros H. apply andb_prop in H as [H1 H2].
  apply Z.eqb_eq in H1. apply Z.leb_le in H2.
  change (emax - prec) with 971 in H2. lia.
Qed.

(** A product of valid floats is valid. *)
Lemma mul_valid (x y : float) :
  valid x = true -> valid y = true -> valid (mul x y) = true.
Proof.
  destruct x as [sx|sx| |sx mx ex], y as [sy|sy| |sy my ey];
    try reflexivity.
  unfold valid at 1 2, valid_binary. intros Hx Hy.
  apply bounded_inv in Hx as (Hex & Hdx & Hcx).
  apply bounded_inv in Hy as (Hey & Hdy & Hcy).
  unfold mul, SFmul. apply binary_round_aux_valid; [lia|].
  unfold fexp_ok. rewrite fexp_eq.
  pose proof (Zdigits2_bounds (Zpos mx) ltac:(lia)) as [Lx _].
  pose proof (Zdigits2_bounds (Zpos my) ltac:(lia)) as [Ly _].
  change (Zdigits2 (Zpos mx)) with (Zpos (digits2_pos mx)) in Lx.
  change (Zdigits2 (Zpos my)) with (Zpos (digits2_pos my)) in Ly.
  set (dx := Zpos (digits2_pos mx)) in *. set (dy := Zpos (digits2_pos my)) in *.
  assert (Hdm : dx + dy - 1 <= Zdigits2 (Zpos (mx * my))).
  { rewrite Zdigits2_log2 by lia.
    assert (dx + dy - 2 <= Z.log2 (Zpos (mx * my))); [|lia].
    apply Z.log2_le_pow2; [lia|].
    replace (dx + dy - 2) with ((dx - 1) + (dy - 1)) by lia.
    rewrite Z.pow_add_r by lia. rewrite Pos2Z.inj_mul.
    apply Z.mul_le_mono_nonneg; try assumption;
      apply Z.pow_nonneg; lia. }
  lia.
Qed.

(** *** Comparison of valid floats *)

Lemma bounded_mantissa (m : positive) (e : Z) :
  bounded prec emax m e = true ->
  Zpos m < 2 ^ 53 /\ (-1074 < e -> 2 ^ 52 <= Zpos m).
Proof.
  intros H. apply bounded_inv in H as (He & Hd & Hc).
  pose proof (Zdigits2_bounds (Zpos m) ltac:(lia)) as [Lo Hi].
  change (Zdigits2 (Zpos m)) with (Zpos (digits2_pos m)) in Lo, Hi.
  split.
  - apply Z.lt_le_trans with (1 := Hi). apply Z.pow_le_mono_r; lia.
  - intros Hlt. destruct Hc as [?|Hc]; [lia|]. now rewrite Hc in Lo.
Qed.

Lemma aligned_lt (m1 m2 : positive) (e1 e2 : Z) :
  bounded prec emax m1 e1 = true -> bounded prec emax m2 e2 = true ->
  match Z.compare e1 e2 with
  | Lt => Lt | Gt => Gt | Eq => Pos.compare_cont Eq m1 m2
  end = Lt ->
  Zpos (fst (shl_align m1 e1 (Z.min e2 e1)))
    < Zpos (fst (shl_align m2 e2 (Z.min e2 e1))).
Proof.
  intros H1 H2 Hc.
  pose proof (bounded_inv _ _ H1) as (He1 & _).
  pose proof (bounded_inv _ _ H2) as (He2 & _).
  apply bounded_mantissa in H1 as [Hi1 Lo1], H2 as [Hi2 Lo2].
  destruct (shl_align_spec m1 e1 (Z.min e2 e1)) as [-> _].
  destruct (shl_align_spec m2 e2 (Z.min e2 e1)) as [-> _].
  destruct (Z.compare_spec e1 e2) as [E|L|G]; try discriminate.
  - subst e2. change (Pos.compare_cont Eq m1 m2) with (Pos.compare m1 m2) in Hc.
    assert (Zpos m1 < Zpos m2) by (apply Pos2Z.pos_lt_pos; exact Hc).
    replace (Z.max 0 (e1 - Z.min e1 e1)) with 0 by lia.
    rewrite Z.pow_0_r. lia.
  - replace (Z.max 0 (e1 - Z.min e2 e1)) with 0 by lia.
    replace (Z.max 0 (e2 - Z.min e2 e1)) with (e2 - e1) by lia.
    rewrite Z.pow_0_r.
    assert (2 ^ 1 <= 2 ^ (e2 - e1)) by (apply Z.pow_le_mono_r; lia).
    change (2 ^ 1) with 2 in *. specialize (Lo2 ltac:(lia)).
    change (2 ^ 53) with (2 ^ 52 * 2) in Hi1. nia.
Qed.

(** A float strictly above another: their difference is not zero. *)
Lemma sub_nonzero (x y : float) :
  valid x = true -> valid y = true -> (y <? x)%F = true ->
  nonzero (sub x y) = true.
Proof.
  destruct x as [sx|sx| |sx mx ex], y as [sy|sy| |sy my ey];
    try discriminate; try (destruct sx, sy; (discriminate || reflexivity)).
  unfold valid, valid_binary. intros Hx Hy Hlt.
  unfold sub, SFsub. cbv zeta.
  pose proof (bounded_inv _ _ Hx) as (Hex & _).
  pose proof (bounded_inv _ _ Hy) as (Hey & _).
  assert (Hne : cond_Zopp sx (Zpos (fst (shl_align mx ex (Z.min ex ey))))
                - cond_Zopp sy (Zpos (fst (shl_align my ey (Z.min ex ey))))
                <> 0).
  { unfold ltb, SFltb, SFcompare in Hlt.
    destruct sx, sy; cbn [cond_Zopp]; try discriminate; try lia.
    - (* both negative: the magnitude of x is below that of y *)
      assert (Zpos (fst (shl_align mx ex (Z.min ey ex)))
                < Zpos (fst (shl_align my ey (Z.min ey ex)))).
      { apply aligned_lt; try assumption.
        rewrite Z.compare_antisym.
        destruct (ey ?= ex)%Z; try discriminate; try reflexivity.
        cbn [CompOpp]. change (Pos.compare_cont Eq mx my) with (Pos.compare mx my).
        rewrite Pos.compare_antisym. unfold Pos.compare.
        now destruct (PosDef.Pos.compare_cont Eq my mx). }
      rewrite (Z.min_comm ex ey). lia.
    - assert (Zpos (fst (shl_align my ey (Z.min ex ey)))
                < Zpos (fst (shl_align mx ex (Z.min ex ey)))).
      { apply aligned_lt; try assumption.
        now destruct (ey ?= ex)%Z, (PosDef.Pos.compare_cont Eq my mx). }
      lia. }
  unfold binary_normalize.
  destruct (cond_Zopp sx _ - cond_Zopp sy _) as [|p|p]; [easy| |];
    apply binary_round_nonzero; lia.
Qed.

Lemma gt_zero_nonzero (x : float) :
  (x >? of_Z 0)%F = true -> (x =? zero)%F = false.
Proof. destruct x as [s|[]| |[] m e]; try discriminate; reflexivity. Qed.

(** *** Exact values: the error of an addition, truncation, order *)

Lemma pow2_pos (k : Z) : 0 <= k -> 0 < 2 ^ k.
Proof. intros. apply Z.pow_pos_nonneg; lia. Qed.

Lemma slack_pos : 0 < slack.
Proof. apply pow2_pos. lia. Qed.

Lemma one_scaled_slack : one_scaled = 17592186044416 * slack.
Proof. exact (Z.pow_add_r 2 44 1030 ltac:(lia) ltac:(lia)). Qed.

Lemma one_scaled_256 : 256 * one_scaled = 2 ^ 1082.
Proof. symmetry. exact (Z.pow_add_r 2 8 1074 ltac:(lia) ltac:(lia)). Qed.

Lemma scaled_nonneg (x : float) : nonneg x = true -> 0 <= scaled x.
Proof.
  destruct x as [s|s| |[] m e]; try discriminate; intros _;
    cbn [scaled cond_Zopp]; lia.
Qed.

(** The sum of two valid non-negative floats below 256 is valid,
    non-negative and within 2^-44 of the exact sum. *)
Lemma add_error (x y : float) :
  valid x = true -> valid y = true -> nonneg x = true -> nonneg y = true ->
  scaled x + scaled y < 256 * one_scaled ->
  valid (add x y) = true /\ nonneg (add x y) = true /\
  - slack <= scaled (add x y) - (scaled x + scaled y) <= slack.
Proof.
  pose proof slack_pos as H0.
  destruct x as [sx|sx| |[] mx ex], y as [sy|sy| |[] my ey]; try discriminate;
    intros Vx Vy _ _ Hsum.
  - destruct sx, sy; repeat split; simpl; lia.
  - repeat split; try assumption; simpl scaled; lia.
  - repeat split; try assumption; simpl scaled; lia.
  - unfold valid, valid_binary in Vx, Vy.
    pose proof (bounded_inv _ _ Vx) as (Hex & _).
    pose proof (bounded_inv _ _ Vy) as (Hey & _).
    unfold add, SFadd. cbv zeta. cbn [cond_Zopp].
    set (ez := Z.min ex ey) in *.
    destruct (shl_align_spec mx ex ez) as [Ax _].
    destruct (shl_align_spec my ey ez) as [Ay _].
    replace (Z.max 0 (ex - ez)) with (ex - ez) in Ax by lia.
    replace (Z.max 0 (ey - ez)) with (ey - ez) in Ay by lia.
    set (ax := fst (shl_align mx ex ez)) in *.
    set (ay := fst (shl_align my ey ez)) in *.
    change (Zpos ax + Zpos ay) with (Zpos (ax + ay)).
    cbn [binary_normalize]. unfold binary_round.
    set (p := (ax + ay)%positive).
    pose proof (shl_align_spec p ez (fexp prec emax (Zpos (digits2_pos p) + ez)))
      as [A B].
    destruct (shl_align p ez (fexp prec emax (Zpos (digits2_pos p) + ez)))
      as [mz ez']. cbn [fst snd] in A, B. cbv zeta in A, B.
    set (k := Z.max 0 (ez - fexp prec emax (Zpos (digits2_pos p) + ez))) in *.
    assert (Hok : fexp_ok (Zpos mz) ez').
    { unfold fexp_ok. rewrite A, Zdigits2_mul_pow2 by lia.
      change (Zdigits2 (Zpos p)) with (Zpos (digits2_pos p)).
      subst k. rewrite !fexp_eq in *. lia. }
    assert (Hez' : -1074 <= ez') by (subst k; rewrite fexp_eq in *; lia).
    (* the exact sum, at the aligned exponent *)
    assert (HX : Zpos mz * 2 ^ (ez' + 1074) = scaled (S754_finite false mx ex)
                   + scaled (S754_finite false my ey)).
    { cbn [scaled cond_Zopp]. rewrite A. subst p.
      rewrite Pos2Z.inj_add, Ax, Ay.
      replace (2 ^ (ex + 1074))
        with (2 ^ (ex - ez) * 2 ^ k * 2 ^ (ez' + 1074))
        by (rewrite <- !Z.pow_add_r by lia; f_equal; lia).
      replace (2 ^ (ey + 1074))
        with (2 ^ (ey - ez) * 2 ^ k * 2 ^ (ez' + 1074))
        by (rewrite <- !Z.pow_add_r by lia; f_equal; lia).
      ring. }
    rewrite <- HX in *. clear HX Ax Ay A B Vx Vy.
    destruct (binary_round_aux_spec false (Zpos mz) ez' loc_Exact ltac:(lia) Hok)
      as (m3 & e3 & -> & Hm3 & Hc & He3 & Herr).
    pose proof (pow2_pos (ez' + 1074) ltac:(lia)) as HQ.
    (* magnitude of the sum *)
    pose proof (Zdigits2_bounds (Zpos mz) ltac:(lia)) as [Lo _].
    pose proof (Zdigits2_pos (Zpos mz) ltac:(lia)) as Hdz.
    assert (Hmag : Zdigits2 (Zpos mz) + ez' <= 8).
    { assert (H : 2 ^ (Zdigits2 (Zpos mz) - 1 + (ez' + 1074)) < 2 ^ 1082).
      { rewrite Z.pow_add_r, <- one_scaled_256 by lia.
        apply Z.le_lt_trans with (2 := Hsum).
        apply Z.mul_le_mono_nonneg_r; lia. }
      apply Z.pow_lt_mono_r_iff in H; lia. }
    rewrite fexp_eq in He3.
    assert (He3' : e3 <= -44) by lia.
    split; [now apply result_of_valid|].
    pose proof (pow2_pos (e3 - ez') ltac:(lia)) as HT.
    assert (HTQ : 2 ^ (e3 - ez') * 2 ^ (ez' + 1074) <= slack).
    { rewrite <- Z.pow_add_r by lia. apply Z.pow_le_mono_r; lia. }
    assert (Hs : scaled (result_of false m3 e3)
                 = m3 * 2 ^ (e3 - ez') * 2 ^ (ez' + 1074)).
    { destruct m3 as [|q|q]; try lia; [reflexivity|]. unfold result_of.
      replace (e3 <=? emax - prec) with true
        by (symmetry; apply Z.leb_le; change (emax - prec) with 971; lia).
      cbn [scaled cond_Zopp]. rewrite <- Z.mul_assoc, <- Z.pow_add_r by lia.
      do 2 f_equal. lia. }
    split.
    { destruct m3 as [|q|q]; try lia; [reflexivity|]. unfold result_of.
      replace (e3 <=? emax - prec) with true
        by (symmetry; apply Z.leb_le; change (emax - prec) with 971; lia).
      reflexivity. }
    rewrite Hs.
    replace (m3 * 2 ^ (e3 - ez') * 2 ^ (ez' + 1074) - Zpos mz * 2 ^ (ez' + 1074))
      with ((m3 * 2 ^ (e3 - ez') - Zpos mz) * 2 ^ (ez' + 1074)) by ring.
    set (T := 2 ^ (e3 - ez')) in *. set (Q := 2 ^ (ez' + 1074)) in *.
    set (D := m3 * T - Zpos mz) in *.
    clearbody D T Q. clear - Herr HTQ HQ HT. nia.
Qed.

Lemma py_int_scaled (x : float) :
  valid x = true -> nonneg x = true ->
  exists n, py_int x = Some n /\
            n * one_scaled <= scaled x < (n + 1) * one_scaled.
Proof.
  destruct x as [s|s| |[] m e]; try discriminate; intros V _.
  - exists 0. pose proof (pow2_pos 1074 ltac:(lia)).
    split; [reflexivity|simpl scaled; unfold one_scaled; lia].
  - unfold valid, valid_binary in V. apply bounded_inv in V as (He & _).
    cbn [py_int scaled cond_Zopp]. eexists. split; [reflexivity|].
    destruct (Z.le_gt_cases 0 e) as [Hpos|Hneg].
    + rewrite Z.shiftl_mul_pow2 by lia.
      replace (2 ^ (e + 1074)) with (2 ^ e * one_scaled)
        by (unfold one_scaled; rewrite <- Z.pow_add_r by lia; reflexivity).
      pose proof (pow2_pos e Hpos) as HE.
      pose proof (pow2_pos 1074 ltac:(lia)) as HU. fold one_scaled in HU.
      set (U := one_scaled) in *. set (E := 2 ^ e) in *.
      clearbody U E. clear - HE HU. nia.
    + rewrite Z.shiftl_div_pow2 by lia.
      replace one_scaled with (2 ^ (- e) * 2 ^ (e + 1074))
        by (unfold one_scaled; rewrite <- Z.pow_add_r by lia; f_equal; lia).
      pose proof (pow2_pos (- e) ltac:(lia)) as HA.
      pose proof (pow2_pos (e + 1074) ltac:(lia)) as HB.
      pose proof (Z.div_mod (Zpos m) (2 ^ (- e)) ltac:(lia)) as Hdm.
      pose proof (Z.mod_pos_bound (Zpos m) (2 ^ (- e)) HA) as Hr.
      set (A := 2 ^ (- e)) in *. set (B := 2 ^ (e + 1074)) in *.
      set (q := Zpos m / A) in *. set (r := Zpos m mod A) in *.
      clearbody A B q r. clear - HA HB Hdm Hr. nia.
Qed.

Lemma ltb_scaled (x y : float) :
  valid x = true -> valid y = true -> nonneg x = true -> nonneg y = true ->
  (x <? y)%F = true -> scaled x < scaled y.
Proof.
  destruct x as [sx|sx| |[] mx ex], y as [sy|sy| |[] my ey]; try discriminate;
    intros Vx Vy _ _ Hlt.
  - cbn [scaled cond_Zopp]. unfold valid, valid_binary in Vy.
    apply bounded_inv in Vy as (He & _).
    pose proof (pow2_pos (ey + 1074) ltac:(lia)). nia.
  - unfold valid, valid_binary in Vx, Vy.
    pose proof (bounded_inv _ _ Vx) as (Hex & _).
    pose proof (bounded_inv _ _ Vy) as (Hey & _).
    unfold ltb, SFltb, SFcompare in Hlt.
    assert (Hal : Zpos (fst (shl_align mx ex (Z.min ey ex)))
                    < Zpos (fst (shl_align my ey (Z.min ey ex)))).
    { apply aligned_lt; try assumption.
      now destruct (ex ?= ey)%Z, (PosDef.Pos.compare_cont Eq mx my). }
    destruct (shl_align_spec mx ex (Z.min ey ex)) as [Ax _].
    destruct (shl_align_spec my ey (Z.min ey ex)) as [Ay _].
    rewrite Ax, Ay in Hal. cbn [scaled cond_Zopp].
    set (ez := Z.min ey ex) in *.
    replace (Z.max 0 (ex - ez)) with (ex - ez) in Hal by lia.
    replace (Z.max 0 (ey - ez)) with (ey - ez) in Hal by lia.
    replace (2 ^ (ex + 1074)) with (2 ^ (ex - ez) * 2 ^ (ez + 1074))
      by (rewrite <- Z.pow_add_r by lia; f_equal; lia).
    replace (2 ^ (ey + 1074)) with (2 ^ (ey - ez) * 2 ^ (ez + 1074))
      by (rewrite <- Z.pow_add_r by lia; f_equal; lia).
    pose proof (pow2_pos (ez + 1074) ltac:(lia)) as HQ.
    rewrite !Z.mul_assoc.
    apply Z.mul_lt_mono_pos_r; assumption.
Qed.

(** *** The weighted sum of the composite *)

Lemma range_forallb (f : Z -> bool) (n : nat) :
  forallb f (range n) = true ->
  forall z, 0 <= z < Z.of_nat n -> f z = true.
Proof.
  intros H z Hz. rewrite forallb_forall in H. apply H.
  unfold range. apply in_map_iff. exists (Z.to_nat z).
  split; [lia|]. apply in_seq. lia.
Qed.

Lemma terms_ok :
  forallb (fun '(w, c) => forallb (term_ok w c) (range 101)) twentieths = true.
Proof. vm_compute. reflexivity. Qed.

Lemma term_ok_inv (w : float) (c s : Z) :
  In (w, c) twentieths -> 0 <= s <= 100 ->
  float_of_int s = Some (of_Z s) /\
  valid (of_Z s * w)%F = true /\ nonneg (of_Z s * w)%F = true /\
  - slack <= 20 * scaled (of_Z s * w)%F - c * s * one_scaled <= slack.
Proof.
  intros Hin Hs. pose proof terms_ok as H. rewrite forallb_forall in H.
  specialize (H _ Hin). cbv beta iota in H.
  pose proof (range_forallb _ _ H s ltac:(lia)) as Hok.
  unfold term_ok in Hok. cbv zeta in Hok.
  repeat (apply andb_prop in Hok as [Hok ?]).
  unfold float_of_int. rewrite Hok.
  repeat split; try assumption; lia.
Qed.

Lemma weighted_step (acc t : float) (K E cs : Z) :
  valid acc = true -> nonneg acc = true ->
  - (E * slack) <= 20 * scaled acc - K * one_scaled <= E * slack ->
  valid t = true -> nonneg t = true ->
  - slack <= 20 * scaled t - cs * one_scaled <= slack ->
  0 <= K + cs <= 2000 -> 0 <= E <= 200 ->
  valid (acc + t)%F = true /\ nonneg (acc + t)%F = true /\
  - ((E + 21) * slack)
    <= 20 * scaled (acc + t)%F - (K + cs) * one_scaled <= (E + 21) * slack.
Proof.
  intros Va Na Ha Vt Nt Ht HK HE.
  pose proof slack_pos as HV. pose proof one_scaled_slack as HU.
  assert (HKs : (K + cs) * slack <= 2000 * slack)
    by (apply Z.mul_le_mono_nonneg_r; lia).
  assert (HEs : E * slack <= 200 * slack)
    by (apply Z.mul_le_mono_nonneg_r; lia).
  destruct (add_error acc t Va Vt Na Nt) as (V & N & Herr).
  { rewrite HU in *. lia. }
  repeat split; try assumption; rewrite HU in *; lia.
Qed.

(** The composite of six sub-scores between 0 and 100: an integer between
    0 and 100, at most the exact weighted sum and less than one below
    it. *)
Lemma composite_spec (scores : gmap string Z) (v q s d g m : Z) :
  scores !! "value"%string = Some v -> scores !! "quality"%string = Some q ->
  scores !! "safety"%string = Some s -> scores !! "dividend"%string = Some d ->
  scores !! "growth"%string = Some g -> scores !! "momentum"%string = Some m ->
  0 <= v <= 100 -> 0 <= q <= 100 -> 0 <= s <= 100 ->
  0 <= d <= 100 -> 0 <= g <= 100 -> 0 <= m <= 100 ->
  exists n, calculate_composite_score scores = Some n /\
    0 <= n <= 100 /\
    5 * v + 5 * q + 4 * s + 3 * d + 2 * g + m - 20 <= 20 * n
      <= 5 * v + 5 * q + 4 * s + 3 * d + 2 * g + m.
Proof.
  intros Lv Lq Ls Ld Lg Lm Hv Hq Hs Hd Hg Hm.
  unfold calculate_composite_score, weights, sum_weighted.
  rewrite Lv, Lq, Ls, Ld, Lg, Lm.
  destruct (term_ok_inv (dec 25 2) 5 v) as (-> & V1 & N1 & E1);
    [simpl; tauto|assumption|].
  destruct (term_ok_inv (dec 25 2) 5 q) as (-> & V2 & N2 & E2);
    [simpl; tauto|assumption|].
  destruct (term_ok_inv (dec 20 2) 4 s) as (-> & V3 & N3 & E3);
    [simpl; tauto|assumption|].
  destruct (term_ok_inv (dec 15 2) 3 d) as (-> & V4 & N4 & E4);
    [simpl; tauto|assumption|].
  destruct (term_ok_inv (dec 10 2) 2 g) as (-> & V5 & N5 & E5);
    [simpl; tauto|assumption|].
  destruct (term_ok_inv (dec 5 2) 1 m) as (-> & V6 & N6 & E6);
    [simpl; tauto|assumption|].
  cbn [mbind option_bind].
  set (t1 := (of_Z v * dec 25 2)%F) in *. set (t2 := (of_Z q * dec 25 2)%F) in *.
  set (t3 := (of_Z s * dec 20 2)%F) in *. set (t4 := (of_Z d * dec 15 2)%F) in *.
  set (t5 := (of_Z g * dec 10 2)%F) in *. set (t6 := (of_Z m * dec 5 2)%F) in *.
  clearbody t1 t2 t3 t4 t5 t6.
  pose proof slack_pos as HV.
  destruct (weighted_step (of_Z 0) t1 0 0 (5 * v)) as (Va1 & Na1 & Ea1);
    try assumption; try reflexivity; try lia.
  { change (scaled (of_Z 0)) with 0. lia. }
  destruct (weighted_step _ t2 _ _ (5 * q) Va1 Na1 Ea1) as (Va2 & Na2 & Ea2);
    try assumption; try lia.
  destruct (weighted_step _ t3 _ _ (4 * s) Va2 Na2 Ea2) as (Va3 & Na3 & Ea3);
    try assumption; try lia.
  destruct (weighted_step _ t4 _ _ (3 * d) Va3 Na3 Ea3) as (Va4 & Na4 & Ea4);
    try assumption; try lia.
  destruct (weighted_step _ t5 _ _ (2 * g) Va4 Na4 Ea4) as (Va5 & Na5 & Ea5);
    try assumption; try lia.
  destruct (weighted_step _ t6 _ _ (1 * m) Va5 Na5 Ea5) as (Va6 & Na6 & Ea6);
    try assumption; try lia.
  set (composite := (of_Z 0 + t1 + t2 + t3 + t4 + t5 + t6)%F) in *.
  set (k := 0 + 5 * v + 5 * q + 4 * s + 3 * d + 2 * g + 1 * m) in *.
  assert (Hk : k = 5 * v + 5 * q + 4 * s + 3 * d + 2 * g + m) by lia.
  assert (Hk2 : 0 <= k <= 2000) by lia.
  rewrite <- Hk. clearbody k composite.
  clear - Va6 Na6 Ea6 HV Hk2.
  pose proof one_scaled_slack as HU.
  assert (Hdiv : forall a : Z, a * one_scaled < one_scaled -> a <= 0).
  { intros a Ha. destruct (Z.le_gt_cases a 0); [assumption|].
    rewrite HU in Ha. nia. }
  unfold fmin. destruct (of_Z 100 <? composite)%F eqn:Hcmp.
  - exists 100. split; [reflexivity|].
    apply ltb_scaled in Hcmp; try assumption; try reflexivity.
    assert (H100 : scaled (of_Z 100) = 100 * one_scaled) by reflexivity.
    rewrite H100 in Hcmp.
    assert (2000 - k <= 0) by (apply Hdiv; lia). lia.
  - destruct (py_int_scaled composite Va6 Na6) as (n & -> & Hn).
    exists n. split; [reflexivity|].
    pose proof (scaled_nonneg composite Na6).
    assert (20 * n - k <= 0) by (apply Hdiv; lia).
    assert (k - 20 * n - 20 <= 0) by (apply Hdiv; lia).
    assert (- n <= 0) by (apply Hdiv; lia).
    lia.
Qed.


(** ** Literals and built-ins on concrete values *)

Example literal_1_81 : dec 181 2 = S754_finite false 8151515325540598 (-52).
Proof. reflexivity. Qed.

Example literal_0_05 : dec 5 2 = S754_finite false 7205759403792794 (-57).
Proof. reflexivity. Qed.

Example literal_22_5 : dec 225 1 = S754_finite false 6333186975989760 (-48).
Proof. reflexivity. Qed.

(** [round(2.675, 2)] is 2.67: the binary64 nearest 2.675 lies below it. *)
Example round_2_675 : py_round2 (dec 2675 3) = dec 267 2.
Proof. vm_compute. reflexivity. Qed.

(** [round(0.125, 2)] is 0.12: an exact tie goes to the even digit. *)
Example round_0_125 : py_round2 (dec 125 3) = dec 12 2.
Proof. vm_compute. reflexivity. Qed.

Example int_truncates : py_int (dec (-37) 1) = Some (-3).
Proof. reflexivity. Qed.

(** [float()] of an integer beyond the float range raises
    [OverflowError], which the handler of [_get_float] does not catch. *)
Example overflow_escapes :
  _get_float (fun _ => None) huge_record "eps" (of_Z 0) = None.
Proof. vm_compute. reflexivity. Qed.

(** P/E 8 scores 35, P/B 0.9 scores 30 and no dividend scores 0. *)
Example value_score_example :
  calculate_value_score (fun _ => None) value_example = Some 65.
Proof. vm_compute. reflexivity. Qed.

(** ** Grades *)

Lemma determine_grade_letters composite piotroski altman :
  In (determine_grade composite piotroski altman)
     ["A"; "B"; "C"; "D"; "E"; "F"]%string.
Proof.
  unfold determine_grade.
  destruct (composite >=? 80); [|destruct (composite >=? 65);
    [|destruct (composite >=? 50); [|destruct (composite >=? 35)]]];
  destruct (piotroski >=? 7), (piotroski <=? 3),
    (altman <? dec 181 2)%F; vm_compute; tauto.
Qed.

(** C1 (fails on the code): with a composite score of 40, a Piotroski
    score of 5 and an Altman value of 1.0 the base grade D is moved one
    code point down the alphabet by the distress adjustment, and
    [determine_grade] returns the letter E, which is not one of the five
    grades A, B, C, D, F. *)
Theorem determine_grade_returns_E :
  determine_grade 40 5 (of_Z 1) = "E"%string /\
  ~ In (determine_grade 40 5 (of_Z 1)) grade_alphabet.
Proof.
  split; [reflexivity|].
  vm_compute. intros H.
  repeat (destruct H as [H|H]; [discriminate H|]). exact H.
Qed.

(** The base grade only depends on which band the composite score is in. *)
Ltac composite_bands c :=
  rewrite ?(Z.geb_leb c);
  destruct (Z.leb_spec 80 c); [|destruct (Z.leb_spec 65 c);
    [|destruct (Z.leb_spec 50 c); [|destruct (Z.leb_spec 35 c)]]].

(** C5: for fixed Piotroski and Altman inputs, a higher composite score
    never yields a worse grade: the grade for [c2] ranks at or before the
    grade for [c1] in the ordering A < B < C < D < F whenever
    [c1 <= c2]. *)
Theorem determine_grade_monotone (piotroski : Z) (altman : float) (c1 c2 : Z) :
  c1 <= c2 ->
  grade_rank (determine_grade c2 piotroski altman)
    <= grade_rank (determine_grade c1 piotroski altman).
Proof.
  intros Hle. unfold determine_grade.
  rewrite !(Z.geb_leb piotroski).
  destruct (Z.leb_spec 7 piotroski), (Z.leb_spec piotroski 3),
    (altman <? dec 181 2)%F;
    composite_bands c1; composite_bands c2;
    solve [exfalso; lia | vm_compute; discriminate].
Qed.

Lemma determine_grade_monotone_witness :
  grade_rank (determine_grade 90 8 (of_Z 1))
    <= grade_rank (determine_grade 40 8 (of_Z 1)).
Proof. apply (determine_grade_monotone 8 (of_Z 1) 40 90). lia. Defined.

(** ** Recommendation *)

(** C4: an Altman Z-score strictly below 1.5 yields the bankruptcy-risk
    recommendation whatever the composite score, the Piotroski score and
    the Graham upside are. *)
Theorem generate_recommendation_distress_first
    (composite piotroski : Z) (altman graham_upside : float) :
  (altman <? dec 15 1)%F = true ->
  generate_recommendation composite piotroski altman graham_upside
    = "Avoid - High Bankruptcy Risk"%string.
Proof. intros H. unfold generate_recommendation. now rewrite H. Qed.

Lemma generate_recommendation_distress_first_witness :
  generate_recommendation 100 9 (dec 149 2) (of_Z 500)
    = "Avoid - High Bankruptcy Risk"%string.
Proof.
  apply (generate_recommendation_distress_first 100 9 (dec 149 2) (of_Z 500)).
  reflexivity.
Defined.

(** ** Coercion, sub-scores and the composite *)

Section SubScores.


Variable float_of_str : string -> option float.

Lemma get_float_numeric (data : record) (key : string) (d : float) :
  numeric_record data -> valid d = true ->
  exists x, _get_float float_of_str data key d = Some x /\ valid x = true.
Proof.
  intros Hrec Hd. unfold _get_float.
  destruct (data !! key) as [v|] eqn:E; [|eauto].
  specialize (Hrec key v E).
  destruct v as [|s|x|n|]; simpl in Hrec; try contradiction; eauto.
  unfold float_of_int. rewrite Hrec. eauto using of_Z_valid.
Qed.

Lemma get_float_coercible (data : record) (key : string) (d : float) :
  score_fields_coercible float_of_str data -> In key score_fields ->
  valid d = true ->
  exists x, _get_float float_of_str data key d = Some x /\ valid x = true.
Proof.
  intros Hrec Hin Hd. unfold _get_float.
  destruct (data !! key) as [v|] eqn:E; [|eauto].
  specialize (Hrec key v Hin E).
  destruct v as [|s|x|n|]; simpl in Hrec; eauto.
  - destruct (float_of_str _) as [x|]; eauto.
  - unfold float_of_int. rewrite Hrec. eauto using of_Z_valid.
Qed.

Lemma numeric_record_coercible (data : record) :
  numeric_record data -> score_fields_coercible float_of_str data.
Proof.
  intros Hrec k v _ E. specialize (Hrec k v E).
  destruct v; simpl in *; try contradiction; auto.
Qed.

Lemma bind_Some {A B : Type} (f : A -> option B) (x : A) :
  (Some x ≫= f) = f x.
Proof. reflexivity. Qed.

(** A ladder only ever adds points. *)
Ltac split_ifs :=
  repeat match goal with
         | |- context [if ?c then _ else _] => destruct c
         end.

Ltac ladder_step :=
  lazymatch goal with
  | |- in_range (let s := ?v in @?b s) =>
      let sc := fresh "sc" in
      let H := fresh "Hsc" in
      pose (sc := v);
      assert (H : 0 <= sc) by (subst sc; split_ifs; lia);
      change (in_range (b sc)); cbv beta; clearbody sc
  end.

Ltac in_fields :=
  unfold score_fields; repeat first [left; reflexivity | right].

Ltac coerce Hrec :=
  match goal with
  | |- context [_get_float float_of_str ?data ?k ?d] =>
      let x := fresh "x" in
      let V := fresh "V" in
      destruct (get_float_coercible data k d Hrec) as (x & -> & V);
      [in_fields
      |first [reflexivity | assumption | apply mul_valid; [assumption|reflexivity]]
      |rewrite bind_Some; cbv beta]
  end.

Ltac finish_range :=
  unfold in_range; eexists; split; [reflexivity|lia].

Lemma quality_score_range (data : record) :
  score_fields_coercible float_of_str data ->
  in_range (calculate_quality_score float_of_str data).
Proof.
  intros Hrec. cbv delta [calculate_quality_score]. cbv beta.
  repeat coerce Hrec. repeat ladder_step. finish_range.
Qed.

Lemma safety_score_range (data : record) :
  score_fields_coercible float_of_str data ->
  in_range (calculate_safety_score float_of_str data).
Proof.
  intros Hrec. cbv delta [calculate_safety_score]. cbv beta.
  repeat coerce Hrec. repeat ladder_step. finish_range.
Qed.

Lemma value_score_range (data : record) :
  score_fields_coercible float_of_str data ->
  in_range (calculate_value_score float_of_str data).
Proof.
  intros Hrec. cbv delta [calculate_value_score]. cbv beta.
  repeat coerce Hrec. repeat ladder_step. finish_range.
Qed.

Lemma py_div_Some (a b : float) :
  (b =? zero)%F = false -> py_div a b = Some (div a b).
Proof. intros H. unfold py_div. now rewrite H. Qed.

Lemma fmax_nonzero (x : float) :
  (x >? of_Z 0)%F = true -> (fmax x (of_Z 5) =? zero)%F = false.
Proof.
  intros H. unfold fmax. destruct (of_Z 5 >? x)%F; [reflexivity|].
  now apply gt_zero_nonzero.
Qed.

(** A binding that is not a score: keep it as a local definition. *)
Ltac keep_let :=
  lazymatch goal with
  | |- in_range (let s := ?v in @?b s) =>
      let sc := fresh "v" in
      pose (sc := v); change (in_range (b sc)); cbv beta
  end.

Ltac next := rewrite bind_Some; cbv beta.

Lemma if_Some {A : Type} (c : bool) (a b : A) :
  (if c then Some a else Some b) = Some (if c then a else b).
Proof. now destruct c. Qed.

Ltac coerce_as Hrec x V :=
  lazymatch goal with
  | |- in_range (_get_float float_of_str ?data ?k ?d ≫= _) =>
      destruct (get_float_coercible data k d Hrec) as (x & -> & V);
      [in_fields
      |first [reflexivity | apply mul_valid; [assumption|reflexivity]]
      |rewrite bind_Some; cbv beta]
  end.

Lemma dividend_score_range (data : record) :
  score_fields_coercible float_of_str data ->
  in_range (calculate_dividend_score float_of_str data).
Proof.
  intros Hrec. cbv delta [calculate_dividend_score]. cbv beta.
  coerce_as Hrec div_yield Vy. coerce_as Hrec dps Vd. coerce_as Hrec eps Ve.
  destruct (eps >? of_Z 0)%F eqn:Heps;
    rewrite ?andb_true_l, ?andb_false_l; cbv iota;
    rewrite ?(py_div_Some _ _ (gt_zero_nonzero _ Heps)), ?bind_Some;
    cbv beta; rewrite ?if_Some, ?bind_Some; cbv beta;
    repeat ladder_step; finish_range.
Qed.

Lemma growth_score_range (data : record) :
  score_fields_coercible float_of_str data ->
  in_range (calculate_growth_score float_of_str data).
Proof.
  intros Hrec. cbv delta [calculate_growth_score]. cbv beta.
  coerce_as Hrec roe Vr. coerce_as Hrec pe Vp. coerce_as Hrec div_yield Vy.
  coerce_as Hrec dps Vd. coerce_as Hrec eps Ve.
  destruct (eps >? of_Z 0)%F eqn:Heps;
    rewrite ?andb_true_l, ?andb_false_l; cbv iota;
    rewrite ?(py_div_Some _ _ (gt_zero_nonzero _ Heps)), ?if_Some; next;
    do 2 keep_let; repeat ladder_step;
    match goal with
    | |- context [if (?sg >? of_Z 0)%F then _ else _] =>
        destruct (sg >? of_Z 0)%F eqn:Hsg;
        [rewrite (py_div_Some _ _ (fmax_nonzero _ Hsg))
        |rewrite (py_div_Some _ (of_Z 10)) by reflexivity]
    end;
    next; repeat ladder_step; finish_range.
Qed.

Lemma momentum_score_range (data : record) :
  score_fields_coercible float_of_str data ->
  in_range (calculate_momentum_score float_of_str data).
Proof.
  intros Hrec. cbv delta [calculate_momentum_score]. cbv beta.
  coerce_as Hrec price Vp. coerce_as Hrec high_52 Vh.
  coerce_as Hrec low_52 Vl. coerce_as Hrec change_pct Vc.
  destruct (high_52 >? low_52)%F eqn:Hhl;
    [rewrite (py_div_Some _ _
                (nonzero_eqb_zero _ (sub_nonzero high_52 low_52 Vh Vl Hhl)))|];
    (destruct (high_52 >? of_Z 0)%F eqn:Hh;
     [rewrite (py_div_Some _ _ (gt_zero_nonzero _ Hh))|]);
    cbv zeta; rewrite ?bind_Some; cbv beta;
    unfold in_range; (eexists; split; [reflexivity|]); split_ifs; lia.
Qed.

Lemma score_kwargs_lookup (v q s d g m : Z) :
  score_kwargs v q s d g m !! "value"%string = Some v /\
  score_kwargs v q s d g m !! "quality"%string = Some q /\
  score_kwargs v q s d g m !! "safety"%string = Some s /\
  score_kwargs v q s d g m !! "dividend"%string = Some d /\
  score_kwargs v q s d g m !! "growth"%string = Some g /\
  score_kwargs v q s d g m !! "momentum"%string = Some m.
Proof. repeat split; reflexivity. Qed.


End SubScores.

Lemma Some_eq_inv {A : Type} (x y : A) : Some x = Some y -> x = y.
Proof. congruence. Qed.

Lemma listed_record_coercible :
  score_fields_coercible float_of_str_example listed_record.
Proof.
  intros k v Hin E. unfold score_fields in Hin. simpl in Hin.
  unfold listed_record in E.
  repeat (destruct Hin as [Hk|Hin];
    [subst k;
     repeat first [rewrite lookup_insert_eq in E
                  |rewrite lookup_insert_ne in E by discriminate];
     first [discriminate E | apply Some_eq_inv in E; subst v; simpl]|]);
    try contradiction; try reflexivity; try exact I.
  intros x Hx. vm_compute in Hx. apply Some_eq_inv in Hx. subst x.
  reflexivity.
Qed.



(** C3 (fails on the code): with a value score of 1 and the other five
    sub-scores 0 the weighted sum is 0.25, and the composite returned is
    the integer 0, which is not within 1e-6 of it. *)
Lemma composite_not_within_tolerance :
  ~ (exists c, calculate_composite_score (score_kwargs 1 0 0 0 0 0) = Some c /\
               within_1e6 c (weighted_sum20 1 0 0 0 0 0)).
Proof.
  intros (c & Hc & Hw). vm_compute in Hc. injection Hc as <-.
  vm_compute in Hw. apply Hw. reflexivity.
Qed.

(** C3, amended: for six sub-scores between 0 and 100 the composite
    returned is an integer [n] with [weighted sum - 1 <= n <= weighted sum]:
    the floating-point weighted sum, truncated by [int]. *)
Theorem composite_truncates_weighted_sum
    (scores : gmap string Z) (v q s d g m : Z) :
  scores !! "value"%string = Some v -> scores !! "quality"%string = Some q ->
  scores !! "safety"%string = Some s -> scores !! "dividend"%string = Some d ->
  scores !! "growth"%string = Some g -> scores !! "momentum"%string = Some m ->
  0 <= v <= 100 -> 0 <= q <= 100 -> 0 <= s <= 100 ->
  0 <= d <= 100 -> 0 <= g <= 100 -> 0 <= m <= 100 ->
  exists n, calculate_composite_score scores = Some n /\
    weighted_sum20 v q s d g m - 20 <= 20 * n <= weighted_sum20 v q s d g m.
Proof.
  intros Lv Lq Ls Ld Lg Lm Hv Hq Hs Hd Hg Hm.
  destruct (composite_spec scores v q s d g m) as (n & En & _ & Hn);
    try assumption.
  exists n. split; [assumption|exact Hn].
Qed.

Lemma composite_truncates_weighted_sum_witness :
  exists n, calculate_composite_score (score_kwargs 10 0 30 0 15 15) = Some n /\
    weighted_sum20 10 0 30 0 15 15 - 20 <= 20 * n
      <= weighted_sum20 10 0 30 0 15 15.
Proof.
  apply (composite_truncates_weighted_sum (score_kwargs 10 0 30 0 15 15)
           10 0 30 0 15 15); first [reflexivity | lia].
Defined.

(** ** The whole analysis *)

Section Analysis.

Variable float_of_str : string -> option float.
Variable pow_half : float -> float.

Lemma get_float_defaulted (data : record) (key : string) (d : float) :
  all_defaulted float_of_str data -> key <> "symbol"%string ->
  _get_float float_of_str data key d = Some d.
Proof.
  intros Hdef Hkey. specialize (Hdef key Hkey). unfold _get_float.
  destruct (data !! key) as [[|s|x|n|]|]; simpl in Hdef;
    try contradiction; try reflexivity.
  now rewrite Hdef.
Qed.

Ltac use_defaults Hdef :=
  repeat first
    [ rewrite bind_Some; cbv beta
    | rewrite (get_float_defaulted _ _ _ Hdef) by discriminate ].

Ltac closed_goal data :=
  lazymatch goal with
  | |- context [data] => fail "the record is still consulted"
  | _ => idtac
  end.

Ltac by_defaults Hdef data f :=
  cbv delta [f]; cbv beta; use_defaults Hdef; closed_goal data;
  vm_compute; reflexivity.

(** C6: when every optional field of a record is absent, [None] or an
    unparsable string, [analyze_company] does not raise: every coercion
    falls back to its default and a complete [InvestmentScores] comes
    back, the one computed from the defaults. *)
Theorem analyze_company_defaults (data : record) :
  all_defaulted float_of_str data ->
  analyze_company float_of_str pow_half data = Some default_scores.
Proof.
  intros Hdef. cbv delta [analyze_company]. cbv beta.
  replace (calculate_piotroski_f_score float_of_str data) with (Some 0)
    by (symmetry; by_defaults Hdef data calculate_piotroski_f_score).
  replace (calculate_altman_z_score float_of_str data) with (Some (of_Z 3))
    by (symmetry; by_defaults Hdef data calculate_altman_z_score).
  replace (calculate_graham_number float_of_str pow_half data) with (Some (of_Z 0))
    by (symmetry; by_defaults Hdef data calculate_graham_number).
  replace (calculate_magic_formula_rank float_of_str data) with (Some 77)
    by (symmetry; by_defaults Hdef data calculate_magic_formula_rank).
  replace (calculate_quality_score float_of_str data) with (Some 0)
    by (symmetry; by_defaults Hdef data calculate_quality_score).
  replace (calculate_safety_score float_of_str data) with (Some 30)
    by (symmetry; by_defaults Hdef data calculate_safety_score).
  replace (calculate_value_score float_of_str data) with (Some 10)
    by (symmetry; by_defaults Hdef data calculate_value_score).
  replace (calculate_dividend_score float_of_str data) with (Some 0)
    by (symmetry; by_defaults Hdef data calculate_dividend_score).
  replace (calculate_growth_score float_of_str data) with (Some 15)
    by (symmetry; by_defaults Hdef data calculate_growth_score).
  replace (calculate_momentum_score float_of_str data) with (Some 15)
    by (symmetry; by_defaults Hdef data calculate_momentum_score).
  repeat (rewrite bind_Some; cbv beta).
  replace (calculate_graham_upside float_of_str pow_half data (Some (of_Z 0)))
    with (Some (of_Z 0))
    by (symmetry; by_defaults Hdef data calculate_graham_upside).
  closed_goal data. vm_compute. reflexivity.
Qed.

End Analysis.

Lemma test_record_defaulted :
  all_defaulted (fun _ => None) test_record.
Proof.
  intros k Hk. unfold test_record.
  rewrite lookup_insert_ne by congruence. now rewrite lookup_empty.
Qed.

Lemma analyze_company_defaults_witness :
  all_defaulted (fun _ => None) test_record /\
  analyze_company (fun _ => None) sqrt test_record = Some default_scores.
Proof.
  split; [exact test_record_defaulted|].
  apply (analyze_company_defaults (fun _ => None) sqrt test_record).
  exact test_record_defaulted.
Defined.

(** ** The Graham number *)

(** *** Floats as real numbers *)

Lemma IZR_pow2 (k : Z) : 0 <= k -> IZR (2 ^ k) = powerRZ 2 k.
Proof.
  intros Hk. destruct k as [|p|p]; [reflexivity| |lia].
  exact (Zpower_pos_powerRZ 2 p).
Qed.

Lemma powerRZ2_add (a b : Z) :
  powerRZ 2 (a + b) = (powerRZ 2 a * powerRZ 2 b)%R.
Proof. apply powerRZ_add. lra. Qed.

Lemma powerRZ2_pos (a : Z) : (0 < powerRZ 2 a)%R.
Proof. apply powerRZ_lt. lra. Qed.

Lemma Rabs_le_inv (a b : R) : (Rabs a <= b -> - b <= a <= b)%R.
Proof. unfold Rabs. destruct (Rcase_abs a); lra. Qed.

(** Squares compare as their non-negative roots do. *)
Lemma square_le (a b : R) :
  (0 <= a -> 0 <= b -> a * a <= b * b -> a <= b)%R.
Proof. intros Ha Hb H. nra. Qed.

Lemma value_pos (m : positive) (e : Z) :
  (0 < value (S754_finite false m e))%R.
Proof.
  cbn [value cond_Zopp]. apply Rmult_lt_0_compat; [|apply powerRZ2_pos].
  apply IZR_lt. lia.
Qed.

Lemma value_22_5 : value (dec 225 1) = 22.5%R.
Proof.
  rewrite literal_22_5. cbn [value cond_Zopp].
  change (powerRZ 2 (-48)) with (/ 2 ^ 48)%R. lra.
Qed.

Lemma value_10 : value (of_Z 10) = 10%R.
Proof.
  change (of_Z 10) with (S754_finite false 5629499534213120 (-49)).
  cbn [value cond_Zopp]. change (powerRZ 2 (-49)) with (/ 2 ^ 49)%R. lra.
Qed.

Lemma value_40 : value (of_Z 40) = 40%R.
Proof.
  change (of_Z 40) with (S754_finite false 5629499534213120 (-47)).
  cbn [value cond_Zopp]. change (powerRZ 2 (-47)) with (/ 2 ^ 47)%R. lra.
Qed.

(** *** The error of the formula on real numbers *)

(** [x1] and [x2] stand for the two rounded products, [g] for the
    computed root and [u] for the relative error of one operation: the
    computed root is within [4 u] of the exact one, relatively. *)
Lemma root_error (u c e n x1 x2 g : R) :
  (0 < u <= 1 / 8 -> 0 < c -> 0 < e -> 0 < n -> 0 < x1 -> 0 < x2 -> 0 < g ->
   Rabs (x1 - c * e) <= x1 * u ->
   Rabs (x2 - x1 * n) <= x2 * u ->
   (g * (1 - u)) * (g * (1 - u)) <= x2 <= (g * (1 + u)) * (g * (1 + u)) ->
   Rabs (g - R_sqrt.sqrt (c * e * n)) <= 4 * u * R_sqrt.sqrt (c * e * n))%R.
Proof.
  intros Hu Hc He Hn H1 H2 Hg E1 E2 [Lo Hi].
  apply Rabs_le_inv in E1. apply Rabs_le_inv in E2.
  set (p := (c * e * n)%R).
  assert (Hp : (0 < p)%R)
    by (unfold p; repeat apply Rmult_lt_0_compat; assumption).
  pose proof (sqrt_pos p) as Hs0.
  pose proof (Rsqr_sqrt p ltac:(lra)) as Hs. unfold Rsqr in Hs.
  set (s := R_sqrt.sqrt p) in *.
  assert (P1 : (x1 * n * (1 - u) <= p <= x1 * n * (1 + u))%R).
  { unfold p. split; nra. }
  assert (P2 : (x2 * (1 - u) * (1 - u) <= p <= x2 * (1 + u) * (1 + u))%R).
  { split; nra. }
  set (a := (g * (1 - u) * (1 - u))%R).
  set (b := (g * (1 + u) * (1 + u))%R).
  assert (Ha : (0 <= a)%R) by (unfold a; repeat apply Rmult_le_pos; lra).
  assert (Hb : (0 <= b)%R) by (unfold b; repeat apply Rmult_le_pos; lra).
  assert (La : (a <= s)%R).
  { apply square_le; [assumption..|]. rewrite Hs. unfold a.
    apply Rle_trans with (x2 * (1 - u) * (1 - u))%R; [|lra].
    replace (g * (1 - u) * (1 - u) * (g * (1 - u) * (1 - u)))%R
      with ((g * (1 - u)) * (g * (1 - u)) * ((1 - u) * (1 - u)))%R by ring.
    replace (x2 * (1 - u) * (1 - u))%R
      with (x2 * ((1 - u) * (1 - u)))%R by ring.
    apply Rmult_le_compat_r; [nra|lra]. }
  assert (Lb : (s <= b)%R).
  { apply square_le; [assumption..|]. rewrite Hs. unfold b.
    apply Rle_trans with (x2 * (1 + u) * (1 + u))%R; [lra|].
    replace (g * (1 + u) * (1 + u) * (g * (1 + u) * (1 + u)))%R
      with ((g * (1 + u)) * (g * (1 + u)) * ((1 + u) * (1 + u)))%R by ring.
    replace (x2 * (1 + u) * (1 + u))%R
      with (x2 * ((1 + u) * (1 + u)))%R by ring.
    apply Rmult_le_compat_r; [nra|lra]. }
  unfold a in La. unfold b in Lb.
  assert (Hgs : (3 * g <= 4 * s)%R) by nra.
  apply Rabs_le. split; nra.
Qed.

(** *** The three float steps: product, root, decimal rounding *)

Lemma gt_zero_cases (x : float) :
  (x >? of_Z 0)%F = true ->
  x = S754_infinity false \/ exists m e, x = S754_finite false m e.
Proof.
  destruct x as [[]|[]| |[] m e]; try discriminate; eauto.
Qed.

Lemma normal_inv (x : float) :
  normal x = true ->
  exists m e, x = S754_finite false m e /\ 2 ^ 52 <= Zpos m.
Proof.
  destruct x as [?|?| |[] m e]; try discriminate. intros H.
  apply Z.leb_le in H. eauto.
Qed.

Lemma full_mantissa_fexp_ok (mx my : positive) (e : Z) :
  2 ^ 52 <= Zpos mx -> fexp_ok (Zpos (mx * my)) e.
Proof.
  intros H. unfold fexp_ok. rewrite fexp_eq.
  assert (53 <= Zdigits2 (Zpos (mx * my))); [|lia].
  rewrite Zdigits2_log2 by lia.
  assert (52 <= Z.log2 (Zpos (mx * my))); [|lia].
  apply Z.log2_le_pow2; [lia|]. rewrite Pos2Z.inj_mul. nia.
Qed.

Lemma result_of_normal (m e : Z) (x : float) :
  result_of false m e = x -> normal x = true ->
  exists p, m = Zpos p /\ x = S754_finite false p e /\ 2 ^ 52 <= Zpos p.
Proof.
  intros <- H. destruct m as [|p|p]; try discriminate.
  unfold result_of in *. destruct (e <=? emax - prec); [|discriminate].
  apply Z.leb_le in H. eauto.
Qed.

(** The product of two positive floats, one of them with a full
    mantissa, has a relative error of at most 2^-52 when it is a normal
    number. *)
Lemma mul_error (mx my : positive) (ex ey : Z) :
  2 ^ 52 <= Zpos mx \/ 2 ^ 52 <= Zpos my ->
  normal (S754_finite false mx ex * S754_finite false my ey)%F = true ->
  (Rabs (value (S754_finite false mx ex * S754_finite false my ey)%F
         - value (S754_finite false mx ex) * value (S754_finite false my ey))
   <= value (S754_finite false mx ex * S754_finite false my ey)%F
      * / 2 ^ 52)%R.
Proof.
  intros Hfull Hn.
  assert (Hok : fexp_ok (Zpos (mx * my)) (ex + ey)).
  { destruct Hfull as [H|H]; [now apply full_mantissa_fexp_ok|].
    rewrite Pos.mul_comm. now apply full_mantissa_fexp_ok. }
  unfold mul, SFmul in *. cbn [xorb] in *.
  destruct (binary_round_aux_spec false (Zpos (mx * my)) (ex + ey) loc_Exact
              ltac:(lia) Hok) as (m3 & e3 & E & _ & _ & He & Herr).
  rewrite E in *.
  destruct (result_of_normal m3 e3 _ eq_refl Hn) as (p & -> & -> & Hp).
  cbn [value cond_Zopp].
  set (d := e3 - (ex + ey)) in *.
  assert (Hd : 0 <= d) by lia.
  replace e3 with (d + (ex + ey)) by lia.
  rewrite !powerRZ2_add, <- (IZR_pow2 d Hd).
  pose proof (powerRZ2_pos ex) as Px. pose proof (powerRZ2_pos ey) as Py.
  set (X := powerRZ 2 ex) in *. set (Y := powerRZ 2 ey) in *.
  assert (HD : (0 < IZR (2 ^ d))%R) by (apply IZR_lt; now apply pow2_pos).
  destruct Herr as [Lo Hi].
  apply IZR_le in Lo, Hi, Hp.
  rewrite minus_IZR, mult_IZR in Lo, Hi. rewrite opp_IZR in Lo.
  rewrite Pos2Z.inj_mul, mult_IZR in Lo, Hi.
  set (D := IZR (2 ^ d)) in *. set (A := IZR (Zpos p)) in *.
  set (Mx := IZR (Zpos mx)) in *. set (My := IZR (Zpos my)) in *.
  assert (HXY : (0 < X * Y)%R) by now apply Rmult_lt_0_compat.
  replace (A * (D * (X * Y)) - Mx * X * (My * Y))%R
    with ((A * D - Mx * My) * (X * Y))%R by ring.
  assert (HA : (1 <= A * / 2 ^ 52)%R) by lra.
  assert (HDA : (D * (X * Y) <= A * / 2 ^ 52 * (D * (X * Y)))%R).
  { rewrite <- (Rmult_1_l (D * (X * Y))) at 1.
    apply Rmult_le_compat_r; [|assumption].
    apply Rlt_le. now apply Rmult_lt_0_compat. }
  apply Rabs_le. split.
  - apply Rle_trans with (- D * (X * Y))%R; [lra|].
    apply Rmult_le_compat_r; lra.
  - apply Rle_trans with (D * (X * Y))%R; [|lra].
    apply Rmult_le_compat_r; lra.
Qed.

(** What the accuracy of a root says on real numbers. *)
Lemma root_within_ulp_spec (x g : float) :
  root_within_ulp x g = true ->
  (0 < value g)%R /\
  ((value g * (1 - / 2 ^ 52)) * (value g * (1 - / 2 ^ 52)) <= value x
   <= (value g * (1 + / 2 ^ 52)) * (value g * (1 + / 2 ^ 52)))%R.
Proof.
  destruct x as [?|?| |[] mx ex]; try discriminate;
    destruct g as [?|?| |[] mg eg]; try discriminate.
  unfold root_within_ulp. cbv zeta.
  set (e := Z.min ex (2 * eg)). set (a := 2 * eg - e). set (b := ex - e).
  intros H. apply andb_prop in H as [H Hi]. apply andb_prop in H as [Hn Lo].
  apply Z.leb_le in Hn, Lo, Hi.
  assert (Ha : 0 <= a) by lia. assert (Hb : 0 <= b) by lia.
  cbn [value cond_Zopp].
  apply IZR_le in Hn, Lo, Hi.
  rewrite !mult_IZR, !(IZR_pow2 _ Ha), !(IZR_pow2 _ Hb) in Lo, Hi.
  change ((Zpos mg - 1) ^ 2) with ((Zpos mg - 1) ^ Z.of_nat 2) in Lo.
  change ((Zpos mg + 1) ^ 2) with ((Zpos mg + 1) ^ Z.of_nat 2) in Hi.
  rewrite <- pow_IZR in Lo, Hi.
  rewrite minus_IZR in Lo. rewrite plus_IZR in Hi.
  pose proof (powerRZ2_pos e) as Pe. pose proof (powerRZ2_pos eg) as Pg.
  assert (Ea : (powerRZ 2 a * powerRZ 2 e = powerRZ 2 eg * powerRZ 2 eg)%R).
  { rewrite <- !powerRZ2_add. f_equal. lia. }
  assert (Eb : (powerRZ 2 b * powerRZ 2 e = powerRZ 2 ex)%R).
  { rewrite <- powerRZ2_add. f_equal. lia. }
  set (G := IZR (Zpos mg)) in *. set (X := IZR (Zpos mx)) in *.
  set (U := powerRZ 2 eg) in *.
  assert (Lo' : ((G - 1) ^ 2 * (U * U) <= X * powerRZ 2 ex)%R).
  { rewrite <- Ea, <- Eb, <- !Rmult_assoc.
    apply Rmult_le_compat_r; lra. }
  assert (Hi' : (X * powerRZ 2 ex <= (G + 1) ^ 2 * (U * U))%R).
  { rewrite <- Ea, <- Eb, <- !Rmult_assoc.
    apply Rmult_le_compat_r; lra. }
  clear Lo Hi Ea Eb.
  assert (HG1 : (1 <= G * / 2 ^ 52)%R) by lra.
  assert (HG0 : (0 < G)%R) by lra.
  split; [now apply Rmult_lt_0_compat|].
  set (P := (X * powerRZ 2 ex)%R) in *.
  split.
  - apply Rle_trans with (2 := Lo').
    replace ((G - 1) ^ 2 * (U * U))%R
      with (((G - 1) * U) * ((G - 1) * U))%R by ring.
    assert (0 <= G * U * (1 - / 2 ^ 52) <= (G - 1) * U)%R.
    { split; [apply Rmult_le_pos; [apply Rmult_le_pos|]; lra|].
      replace (G * U * (1 - / 2 ^ 52))%R
        with ((G - G * / 2 ^ 52) * U)%R by ring.
      apply Rmult_le_compat_r; lra. }
    apply Rmult_le_compat; lra.
  - apply Rle_trans with (1 := Hi').
    replace ((G + 1) ^ 2 * (U * U))%R
      with (((G + 1) * U) * ((G + 1) * U))%R by ring.
    assert (0 <= (G + 1) * U <= G * U * (1 + / 2 ^ 52))%R.
    { split; [apply Rmult_le_pos; lra|].
      replace (G * U * (1 + / 2 ^ 52))%R
        with ((G + G * / 2 ^ 52) * U)%R by ring.
      apply Rmult_le_compat_r; lra. }
    apply Rmult_le_compat; lra.
Qed.

Lemma rne_shift_error (m k : Z) :
  0 <= m -> 0 < k ->
  0 <= rne_shift m k /\ Z.abs (2 * (rne_shift m k * 2 ^ k - m)) <= 2 ^ k.
Proof.
  intros Hm Hk. unfold rne_shift. cbv zeta.
  rewrite Z.shiftr_div_pow2, !Z.shiftl_mul_pow2 by lia. rewrite Z.mul_1_l.
  pose proof (pow2_pos k ltac:(lia)) as Hp.
  pose proof (Z.div_mod m (2 ^ k) ltac:(lia)) as Hdm.
  pose proof (Z.mod_pos_bound m (2 ^ k) Hp) as Hr.
  pose proof (Z.div_pos m (2 ^ k) Hm Hp) as Hq.
  set (q := m / 2 ^ k) in *. set (r := m mod 2 ^ k) in *.
  replace (m - q * 2 ^ k) with r by lia.
  destruct (Z.compare_spec (2 * r) (2 ^ k)).
  - destruct (Z.even q); split; lia.
  - split; lia.
  - split; lia.
Qed.

(** [round(x, 2)] of a positive float is the float nearest to [n / 100]
    for an integer [n >= 0] with [n / 100] within 0.005 of [x]. *)
Lemma round2_error (m : positive) (e : Z) :
  exists n, py_round2 (S754_finite false m e) = hundredths n /\ 0 <= n /\
    (Rabs (IZR n / 100 - value (S754_finite false m e)) <= 1 / 200)%R.
Proof.
  unfold py_round2. cbn [value cond_Zopp].
  destruct (Z.leb_spec 0 e) as [He|He].
  - exists (Z.shiftl (Zpos m * 100) e). split; [reflexivity|].
    rewrite Z.shiftl_mul_pow2 by lia.
    split; [pose proof (pow2_pos e He); nia|].
    rewrite !mult_IZR, (IZR_pow2 e He).
    replace (IZR (Zpos m) * 100 * powerRZ 2 e / 100
             - IZR (Zpos m) * powerRZ 2 e)%R with 0%R by field.
    rewrite Rabs_R0. lra.
  - exists (rne_shift (Zpos m * 100) (- e)). split; [reflexivity|].
    destruct (rne_shift_error (Zpos m * 100) (- e) ltac:(lia) ltac:(lia))
      as [H0 H].
    set (n := rne_shift (Zpos m * 100) (- e)) in *.
    split; [exact H0|].
    apply Z.abs_le in H. destruct H as [Lo Hi].
    apply IZR_le in Lo, Hi.
    rewrite opp_IZR in Lo.
    rewrite mult_IZR, minus_IZR, !mult_IZR, (IZR_pow2 (- e)) in Lo, Hi
      by lia.
    pose proof (powerRZ2_pos e) as Pe.
    pose proof (powerRZ2_pos (- e)) as Pn.
    assert (E1 : (powerRZ 2 (- e) * powerRZ 2 e = 1)%R).
    { rewrite <- powerRZ2_add. replace (- e + e) with 0 by lia.
      reflexivity. }
    set (K := powerRZ 2 (- e)) in *. set (E := powerRZ 2 e) in *.
    set (M := IZR (Zpos m)) in *. set (N := IZR n) in *.
    assert (Lo' : (- (K * E) <= 2 * (N * K - M * 100) * E)%R).
    { replace (- (K * E))%R with (- K * E)%R by ring.
      apply Rmult_le_compat_r; lra. }
    assert (Hi' : (2 * (N * K - M * 100) * E <= K * E)%R).
    { apply Rmult_le_compat_r; lra. }
    replace (2 * (N * K - M * 100) * E)%R
      with (2 * (N * (K * E) - 100 * (M * E)))%R in Lo', Hi' by ring.
    rewrite E1 in Lo', Hi'.
    apply Rabs_le. lra.
Qed.

(** The last place of [x ** 0.5] decides the result.  With the EPS below
    and a NAV of 1 the product is the float 73.18802500000001, whose
    square root is 8.555 to sixteen digits.  The correctly rounded root
    8.555 and its upper neighbour 8.555000000000001 are both within one
    unit in the last place, and a C library may return either: the first
    is rounded to 8.55, the second to 8.56. *)
Example graham_last_place :
  (dec 225 1 * last_place_eps * of_Z 1)%F = dec 7318802500000001 14 /\
  sqrt (dec 7318802500000001 14) = dec 8555 3 /\
  root_within_ulp (dec 7318802500000001 14) (dec 8555 3) = true /\
  root_within_ulp (dec 7318802500000001 14) (dec 8555000000000001 15)
    = true /\
  py_round2 (dec 8555 3) = dec 855 2 /\
  py_round2 (dec 8555000000000001 15) = dec 856 2.
Proof. vm_compute. repeat split. Qed.

Section Graham.

Variable float_of_str : string -> option float.
Variable pow_half : float -> float.

Lemma graham_number_positive (data : record) (eps nav : float) :
  _get_float float_of_str data "eps" (of_Z 0) = Some eps ->
  _get_float float_of_str data "nav" (of_Z 0) = Some nav ->
  (eps >? of_Z 0)%F = true -> (nav >? of_Z 0)%F = true ->
  normal (dec 225 1 * eps)%F = true ->
  normal (dec 225 1 * eps * nav)%F = true ->
  root_within_ulp (dec 225 1 * eps * nav)%F
    (pow_half (dec 225 1 * eps * nav)%F) = true ->
  exists n : Z,
    calculate_graham_number float_of_str pow_half data
      = Some (hundredths n) /\ 0 <= n /\
    (Rabs (IZR n / 100 - R_sqrt.sqrt (22.5 * value eps * value nav))
     <= 1 / 200 + R_sqrt.sqrt (22.5 * value eps * value nav) / 2 ^ 50)%R.
Proof.
  intros He Hn Hep Hnp N1 N2 Hacc.
  cbv delta [calculate_graham_number]. cbv beta.
  rewrite He, bind_Some. cbv beta. rewrite Hn, bind_Some. cbv beta.
  rewrite Hep, Hnp. cbn [andb]. cbv zeta.
  destruct (gt_zero_cases eps Hep) as [->|(me & ee & ->)];
    [vm_compute in N1; discriminate N1|].
  pose proof value_22_5 as Vc. rewrite literal_22_5 in *.
  pose proof (mul_error 6333186975989760 me (-48) ee
                ltac:(left; vm_compute; discriminate) N1) as E1.
  destruct (normal_inv _ N1) as (m1 & e1 & Ex1 & F1).
  rewrite Ex1 in *.
  destruct (gt_zero_cases nav Hnp) as [->|(mn & en & ->)];
    [discriminate N2|].
  pose proof (mul_error m1 mn e1 en ltac:(now left) N2) as E2.
  destruct (normal_inv _ N2) as (m2 & e2 & Ex2 & F2).
  rewrite Ex2 in *.
  destruct (root_within_ulp_spec _ _ Hacc) as (Hg & Hroot).
  destruct (pow_half (S754_finite false m2 e2)) as [?|?| |[] mg eg] eqn:Eg;
    try discriminate Hacc.
  destruct (round2_error mg eg) as (n & -> & Hn0 & Hr).
  exists n. split; [reflexivity|]. split; [exact Hn0|].
  pose proof (value_pos me ee) as Pe. pose proof (value_pos mn en) as Pn.
  pose proof (value_pos m1 e1) as P1. pose proof (value_pos m2 e2) as P2.
  rewrite Vc in E1.
  pose proof (root_error (/ 2 ^ 52) 22.5 _ _ _ _ _
                ltac:(lra) ltac:(lra) Pe Pn P1 P2 Hg E1 E2 Hroot) as Hs.
  pose proof (sqrt_pos (22.5 * value (S754_finite false me ee)
                        * value (S754_finite false mn en))) as S0.
  set (s := R_sqrt.sqrt _) in *.
  set (G := value (S754_finite false mg eg)) in *.
  apply Rabs_le_inv in Hr, Hs. apply Rabs_le. lra.
Qed.

Lemma graham_number_zero (data : record) (eps nav : float) :
  _get_float float_of_str data "eps" (of_Z 0) = Some eps ->
  _get_float float_of_str data "nav" (of_Z 0) = Some nav ->
  (eps >? of_Z 0)%F && (nav >? of_Z 0)%F = false ->
  calculate_graham_number float_of_str pow_half data = Some (of_Z 0).
Proof.
  intros He Hn H. cbv delta [calculate_graham_number]. cbv beta.
  rewrite He, bind_Some. cbv beta. rewrite Hn, bind_Some. cbv beta.
  now rewrite H.
Qed.

Lemma graham_number_example :
  root_within_ulp (of_Z 9000) (pow_half (of_Z 9000)) = true ->
  calculate_graham_number float_of_str pow_half graham_example
    = Some (dec 9487 2).
Proof.
  intros Hacc.
  destruct (graham_number_positive graham_example (of_Z 10) (of_Z 40))
    as (n & -> & _ & Hn); try reflexivity.
  - replace (dec 225 1 * of_Z 10 * of_Z 40)%F with (of_Z 9000)
      by (vm_compute; reflexivity).
    exact Hacc.
  - rewrite value_10, value_40 in Hn.
    replace (22.5 * 10 * 40)%R with 9000%R in Hn by lra.
    pose proof (sqrt_pos 9000) as S0.
    pose proof (Rsqr_sqrt 9000 ltac:(lra)) as Hs. unfold Rsqr in Hs.
    set (s := R_sqrt.sqrt 9000) in *.
    assert (94.868 < s < 94.869)%R by (split; nra).
    apply Rabs_le_inv in Hn.
    assert (Hlo : (IZR 9486 < IZR n)%R) by lra.
    assert (Hhi : (IZR n < IZR 9488)%R) by lra.
    apply lt_IZR in Hlo, Hhi.
    replace n with 9487 by lia. vm_compute. reflexivity.
Qed.


End Graham.



(** ** Earnings quality *)

Module MetricsFacts.
Import Metrics.

(** C8 (fails on the code): on the row with operating cash flow 0, net
    profit 0 and total assets 100 the accruals ratio is 0, but the
    earnings-quality score is not 50. *)
Lemma earnings_quality_example_not_50 :
  ~ (example_column "accruals_ratio" = Some (of_Z 0) /\
     example_column "earnings_quality" = Some (of_Z 50)).
Proof. intros [_ H]. vm_compute in H. discriminate H. Qed.

(** C8, amended: on that row the accruals ratio is 0 and the
    earnings-quality score is 70: the base 50, plus 15 and 5 for an
    absolute accruals ratio below 0.05 and below 0.02; the two free-cash-flow
    bonuses are not triggered. *)
Theorem earnings_quality_example :
  example_column "accruals_ratio" = Some (of_Z 0) /\
  example_column "earnings_quality" = Some (of_Z 70).
Proof. split; vm_compute; reflexivity. Qed.

End MetricsFacts.

(** ** Screening *)

Module ScreenerFacts.
Import Screener.

Lemma has_column_In (df : DataFrame) (col : string) :
  has_column df col = true <-> In col (columns df).
Proof.
  unfold has_column. rewrite existsb_exists. split.
  - intros (x & Hin & Heq). apply String.eqb_eq in Heq. now subst.
  - intros Hin. exists col. split; [assumption|apply String.eqb_refl].
Qed.

(** C10: a criterion whose column is not a column of the table leaves the
    table unchanged: no row is removed and nothing is raised. *)
Theorem apply_criterion_absent_column (df : DataFrame) (c : ScreeningCriteria) :
  ~ In (column c) (columns df) -> _apply_criterion df c = df.
Proof.
  intros Hnot. unfold _apply_criterion.
  destruct (has_column df (column c)) eqn:E; [|reflexivity].
  apply has_column_In in E. contradiction.
Qed.

Lemma mask_satisfies (df : DataFrame) (c : ScreeningCriteria) (r : row) :
  known_operator c -> has_column df (column c) = true ->
  mask c r = satisfies df r c.
Proof.
  intros [op Hop] Hcol. unfold satisfies, mask. rewrite Hcol, Hop.
  unfold op_of_string in Hop.
  repeat match type of Hop with
         | (if ?b then _ else _) = _ => destruct b
         end;
    inversion Hop; subst op; cbn [holds];
    now rewrite <- ?andb_assoc.
Qed.

Lemma apply_criterion_filter (df : DataFrame) (c : ScreeningCriteria) :
  known_operator c ->
  _apply_criterion df c =
    {| columns := columns df;
       rows := List.filter (fun r => satisfies df r c) (rows df) |}.
Proof.
  intros Hop. unfold _apply_criterion.
  destruct (has_column df (column c)) eqn:E; cbn [negb].
  - f_equal. apply List.filter_ext. intros r. now apply mask_satisfies.
  - destruct df as [cols rs]. cbn [columns rows]. f_equal.
    rewrite <- (List.filter_true rs) at 1.
    apply List.filter_ext. intros r. unfold satisfies. now rewrite E.
Qed.

Lemma filter_conj {A : Type} (p q : A -> bool) (l : list A) :
  List.filter q (List.filter p l) = List.filter (fun x => p x && q x) l.
Proof.
  induction l as [|x l IH]; [reflexivity|]. cbn [List.filter].
  destruct (p x); cbn [List.filter andb].
  - destruct (q x); now rewrite IH.
  - exact IH.
Qed.

Lemma fold_apply_criterion (cs : list ScreeningCriteria) :
  forall df : DataFrame,
    Forall known_operator cs ->
    fold_left _apply_criterion cs df =
      {| columns := columns df;
         rows := List.filter (fun r => forallb (satisfies df r) cs) (rows df) |}.
Proof.
  induction cs as [|c cs IH]; intros df Hops.
  - destruct df as [cols rs]. cbn [fold_left forallb columns rows].
    now rewrite List.filter_true.
  - inversion Hops as [|? ? Hc Hcs]; subst.
    cbn [fold_left forallb]. rewrite (apply_criterion_filter df c Hc).
    rewrite (IH _ Hcs). cbn [columns rows]. f_equal.
    rewrite filter_conj. apply List.filter_ext. intros r. reflexivity.
Qed.

Lemma forallb_Permutation {A : Type} (p : A -> bool) (l l' : list A) :
  Permutation l l' -> forallb p l = forallb p l'.
Proof.
  induction 1 as [|x l l' _ IH|x y l|l l' l'' _ IH1 _ IH2];
    cbn [forallb]; try congruence.
  now rewrite !andb_assoc, (andb_comm (p y)).
Qed.

(** C9 (fails on the code): a table with a row and no column is empty for
    pandas, and [screen] answers with the empty table although its row
    satisfies every criterion of the empty list. *)
Lemma screen_drops_rows_without_columns :
  rows (screen (Some degenerate_frame) [])
    <> List.filter (fun r => forallb (satisfies degenerate_frame r) [])
         (rows degenerate_frame).
Proof. vm_compute. discriminate. Qed.

(** C9, amended: for a table that has a column, or has no row, and
    criteria over the six operators, [screen] returns exactly the rows
    that satisfy every criterion, a criterion that names no column of the
    table being skipped and a NaN cell satisfying none; permuting the
    criteria gives the same result.  A table without columns, whatever
    its rows and the criteria, is answered with the empty table. *)
Theorem screen_conjunction (df : DataFrame) (cs : list ScreeningCriteria) :
  (Forall known_operator cs ->
   columns df <> [] \/ rows df = [] ->
   rows (screen (Some df) cs)
     = List.filter (fun r => forallb (satisfies df r) cs) (rows df) /\
   forall cs', Permutation cs cs' ->
     screen (Some df) cs' = screen (Some df) cs) /\
  (columns df = [] -> screen (Some df) cs = empty_frame).
Proof.
  split; [|intros Hc; unfold screen, df_empty; now rewrite Hc].
  intros Hops Hdf. unfold screen.
  destruct (df_empty df) eqn:E.
  - split; [|reflexivity].
    assert (Hrows : rows df = []).
    { destruct Hdf as [Hc|Hr]; [|assumption]. unfold df_empty in E.
      destruct (columns df); [contradiction|].
      destruct (rows df); [reflexivity|discriminate]. }
    now rewrite Hrows.
  - split.
    + now rewrite (fold_apply_criterion cs df Hops).
    + intros cs' Hperm.
      rewrite (fold_apply_criterion cs df Hops).
      rewrite (fold_apply_criterion cs' df)
        by (now apply (Permutation_Forall Hperm)).
      f_equal. apply List.filter_ext. intros r. symmetry.
      now apply forallb_Permutation.
Qed.

Lemma apply_criterion_absent_column_witness :
  _apply_criterion example_frame on_absent_column = example_frame.
Proof.
  apply (apply_criterion_absent_column example_frame on_absent_column).
  cbn [columns column example_frame on_absent_column In].
  intros [H|[H|[]]]; discriminate H.
Defined.

Lemma example_criteria_known :
  Forall known_operator [positive_eps; on_absent_column; moderate_pe].
Proof. repeat constructor; eexists; reflexivity. Qed.

Lemma screen_conjunction_witness :
  (rows (screen (Some example_frame)
           [positive_eps; on_absent_column; moderate_pe])
     = List.filter
         (fun r => forallb (satisfies example_frame r)
                     [positive_eps; on_absent_column; moderate_pe])
         (rows example_frame) /\
   forall cs',
     Permutation [positive_eps; on_absent_column; moderate_pe] cs' ->
     screen (Some example_frame) cs'
       = screen (Some example_frame)
           [positive_eps; on_absent_column; moderate_pe]) /\
  screen (Some degenerate_frame) [positive_eps] = empty_frame.
Proof.
  split.
  - apply (proj1 (screen_conjunction example_frame
                    [positive_eps; on_absent_column; moderate_pe])).
    + exact example_criteria_known.
    + left. discriminate.
  - apply (proj2 (screen_conjunction degenerate_frame [positive_eps])).
    reflexivity.
Defined.

(** The example keeps the first row only. *)
Example screen_example :
  rows (screen (Some example_frame)
          [positive_eps; on_absent_column; moderate_pe])
    = [ <["eps" := of_Z 4]> (<["pe_ratio" := of_Z 9]> ∅) ].
Proof. vm_compute. reflexivity. Qed.

End ScreenerFacts.

(** * Further properties of the code *)

(** ** Comparisons with the thresholds of the source *)

(** A closed float expression is replaced by its value. *)
Ltac lit t := let v := eval vm_compute in t in change t with v.

Lemma leb_zero_cases (x : float) :
  (x <=? of_Z 0)%F = true ->
  (of_Z 0 <? x)%F = false /\ (x <=? of_Z 10)%F = true.
Proof.
  lit (of_Z 0). lit (of_Z 10).
  destruct x as [[]|[]| |[] m e];
    unfold leb, ltb, SFleb, SFltb, SFcompare;
    intros H; try discriminate H; split; reflexivity.
Qed.

Lemma not_leb_zero_nonzero (x : float) :
  (x <=? of_Z 0)%F = false -> (x =? zero)%F = false.
Proof.
  lit (of_Z 0). unfold zero.
  destruct x as [[]|[]| |[] m e];
    unfold leb, eqb, SFleb, SFeqb, SFcompare;
    intros H; try discriminate H; reflexivity.
Qed.

Lemma compare_cont_lt (m a b : positive) :
  (a < b)%positive ->
  PosDef.Pos.compare_cont Eq m a = Lt -> PosDef.Pos.compare_cont Eq m b = Lt.
Proof.
  intros Hab H. change (Pos.compare m a = Lt) in H.
  change (Pos.compare m b = Lt).
  apply Pos.compare_lt_iff in H. apply Pos.compare_lt_iff.
  now apply Pos.lt_trans with a.
Qed.

(** Below 1.5 is below 1.81: both thresholds have the exponent -52. *)
Lemma lt_15_lt_181 (a : float) :
  (a <? dec 15 1)%F = true -> (a <? dec 181 2)%F = true.
Proof.
  lit (dec 15 1). lit (dec 181 2).
  destruct a as [[]|[]| |[] m e];
    unfold ltb, SFltb, SFcompare;
    intros H; try discriminate H; try reflexivity.
  destruct (e ?= -52); try discriminate H; try reflexivity.
  destruct (PosDef.Pos.compare_cont Eq m 6755399441055744) eqn:E;
    try discriminate H.
  now rewrite (compare_cont_lt m 6755399441055744 8151515325540598 eq_refl E).
Qed.

(** Above 100 is above 80: both have the exponent -46. *)
Lemma gt_100_gt_80 (x : float) :
  (x >? of_Z 100)%F = true -> (x >? of_Z 80)%F = true.
Proof.
  lit (of_Z 100). lit (of_Z 80).
  destruct x as [[]|[]| |[] m e];
    unfold ltb, SFltb, SFcompare;
    intros H; try discriminate H; try reflexivity.
  destruct (-46 ?= e); try discriminate H; try reflexivity.
  change (Pos.compare 7036874417766400 m) with
    (PosDef.Pos.compare_cont Eq 7036874417766400 m) in *.
  destruct (PosDef.Pos.compare_cont Eq 7036874417766400 m) eqn:E;
    try discriminate H.
  change (Pos.compare 7036874417766400 m = Lt) in E.
  apply Pos.compare_lt_iff in E.
  assert (L : (5629499534213120 < m)%positive)
    by (eapply Pos.lt_trans; [|exact E]; reflexivity).
  apply Pos.compare_lt_iff in L.
  change (PosDef.Pos.compare_cont Eq 5629499534213120 m = Lt) in L.
  now rewrite L.
Qed.

(** An absolute value below 0.02 is below 0.05: the exponents are -58
    and -57. *)
Lemma lt_002_lt_005 (x : float) :
  (abs x <? dec 2 2)%F = true -> (abs x <? dec 5 2)%F = true.
Proof.
  lit (dec 2 2). lit (dec 5 2).
  destruct x as [[]|[]| |[] m e];
    unfold abs, SFabs, ltb, SFltb, SFcompare;
    intros H; try discriminate H; try reflexivity.
  all: destruct (Z.compare_spec e (-58)) as [He|He|He];
    try discriminate H.
  all: replace (e ?= -57) with Lt by (symmetry; apply Z.compare_lt_iff; lia).
  all: reflexivity.
Qed.

Lemma div_nan_l (x : float) : div S754_nan x = S754_nan.
Proof. destruct x; reflexivity. Qed.

Lemma add_nan_r (x : float) : (x + S754_nan)%F = S754_nan.
Proof. destruct x as [| | |[] ? ?]; reflexivity. Qed.

(** ** Coercion of a field *)

Lemma str_remove_app (c : ascii) (s1 s2 : string) :
  str_remove c (s1 ++ s2) = (str_remove c s1 ++ str_remove c s2)%string.
Proof.
  induction s1 as [|a s1 IH]; [reflexivity|].
  change (String a s1 +:+ s2) with (String a (s1 +:+ s2)). cbn [str_remove].
  destruct (Ascii.eqb a c); [exact IH|].
  change (String a (str_remove c s1) +:+ str_remove c s2)
    with (String a (str_remove c s1 +:+ str_remove c s2)).
  now rewrite IH.
Qed.

Lemma str_remove_insert (c : ascii) (s1 s2 : string) :
  str_remove c (s1 ++ String c s2) = str_remove c (s1 ++ s2).
Proof.
  rewrite !str_remove_app. cbn [str_remove]. now rewrite Ascii.eqb_refl.
Qed.

Lemma str_remove_comm (a b : ascii) (s : string) :
  str_remove a (str_remove b s) = str_remove b (str_remove a s).
Proof.
  induction s as [|x s IH]; [reflexivity|]. cbn [str_remove].
  destruct (Ascii.eqb x b) eqn:Eb, (Ascii.eqb x a) eqn:Ea;
    cbn [str_remove]; rewrite ?Eb, ?Ea; congruence.
Qed.

Section Coercion.

Variable float_of_str : string -> option float.

(** X1: the only exception that escapes [_get_float] is the
    [OverflowError] of [float] on an integer beyond the float range: the
    call raises exactly when the key holds such an integer.  A missing
    key, [None], a string [float] rejects once [,] and [%] are removed,
    and any other object [float] rejects all give the default, whatever
    the default is; a float is returned as it is, an integer within the
    float range as its float, and a string [float] accepts as the float
    read from it without [,] and [%]. *)
Theorem get_float_raises_only_on_overflow
    (data : record) (key : string) (d : float) :
  (_get_float float_of_str data key d = None <->
   exists n, data !! key = Some (PyInt n) /\ is_finite (of_Z n) = false) /\
  (data !! key = None -> _get_float float_of_str data key d = Some d) /\
  (data !! key = Some PyNone ->
   _get_float float_of_str data key d = Some d) /\
  (forall s, data !! key = Some (PyStr s) ->
     float_of_str (str_remove "%" (str_remove "," s)) = None ->
     _get_float float_of_str data key d = Some d) /\
  (data !! key = Some PyOther ->
   _get_float float_of_str data key d = Some d) /\
  (forall x, data !! key = Some (PyFloat x) ->
     _get_float float_of_str data key d = Some x) /\
  (forall n, data !! key = Some (PyInt n) -> is_finite (of_Z n) = true ->
     _get_float float_of_str data key d = Some (of_Z n)) /\
  (forall s x, data !! key = Some (PyStr s) ->
     float_of_str (str_remove "%" (str_remove "," s)) = Some x ->
     _get_float float_of_str data key d = Some x).
Proof.
  unfold _get_float, float_of_int. split; [split|].
  - destruct (data !! key) as [[|s|x|n|]|]; try discriminate.
    + destruct (float_of_str _); discriminate.
    + destruct (is_finite (of_Z n)) eqn:E; [discriminate|]. eauto.
  - intros (n & -> & ->). reflexivity.
  - repeat split.
    + now intros ->.
    + now intros ->.
    + now intros s -> ->.
    + now intros ->.
    + now intros x ->.
    + now intros n -> ->.
    + now intros s x -> ->.
Qed.

(** X2: a comma or a percent sign anywhere in a string value does not
    change what [_get_float] reads: the value is the one read from the
    string without that character. *)
Theorem get_float_ignores_separators
    (data : record) (key : string) (d : float) (s1 s2 : string) :
  _get_float float_of_str (<[key := PyStr (s1 ++ String "," s2)]> data) key d
    = _get_float float_of_str (<[key := PyStr (s1 ++ s2)]> data) key d /\
  _get_float float_of_str (<[key := PyStr (s1 ++ String "%" s2)]> data) key d
    = _get_float float_of_str (<[key := PyStr (s1 ++ s2)]> data) key d.
Proof.
  unfold _get_float. rewrite !lookup_insert_eq. split.
  - now rewrite str_remove_insert.
  - rewrite (str_remove_comm "%" "," (s1 ++ String "%" s2)).
    rewrite str_remove_insert. now rewrite (str_remove_comm "," "%").
Qed.

End Coercion.

(** ** Ranges of the scores, whatever the record holds *)

Section Ranges.

Variable float_of_str : string -> option float.

Ltac split_ifs :=
  repeat match goal with
         | |- context [if ?c then _ else _] => destruct c
         end.

(** One step through a score function: a local definition is named (a
    score with the fact that it is not negative), a coercion or a division
    either raises or gives a value, a test is decided both ways. *)
Ltac range_step :=
  lazymatch goal with
  | |- within ?lo ?hi (let s := ?v in @?b s) =>
      first
        [ let sc := fresh "sc" in
          let H := fresh "Hsc" in
          pose (sc := v);
          assert (H : 0 <= sc) by (subst sc; split_ifs; lia);
          change (within lo hi (b sc)); cbv beta; clearbody sc
        | let sc := fresh "v" in
          pose (sc := v); change (within lo hi (b sc)); cbv beta;
          clearbody sc ]
  | |- within _ _ (Some _ ≫= _) => rewrite bind_Some; cbv beta
  | |- within _ _ ((if ?c then _ else _) ≫= _) => destruct c
  | |- within ?lo ?hi ((let s := ?v in @?b s) ≫= ?g) =>
      change (within lo hi (b v ≫= g)); cbv beta
  | |- within _ _ ((?e ≫= _) ≫= _) =>
      let x := fresh "x" in
      destruct e as [x|]; [rewrite bind_Some; cbv beta | exact I]
  | |- within _ _ (?e ≫= _) =>
      let x := fresh "x" in
      destruct e as [x|]; [rewrite bind_Some; cbv beta | exact I]
  | |- within _ _ (Some _) => cbv beta delta [within] iota; split_ifs; lia
  end.

Ltac ranges f := cbv delta [f]; cbv beta; repeat range_step.

Lemma piotroski_within (data : record) :
  within 0 9 (calculate_piotroski_f_score float_of_str data).
Proof. ranges calculate_piotroski_f_score. Qed.

Lemma magic_formula_within (data : record) :
  within 1 100 (calculate_magic_formula_rank float_of_str data).
Proof. ranges calculate_magic_formula_rank. Qed.

Lemma quality_within (data : record) :
  within 0 100 (calculate_quality_score float_of_str data).
Proof. ranges calculate_quality_score. Qed.

Lemma safety_within (data : record) :
  within 0 100 (calculate_safety_score float_of_str data).
Proof. ranges calculate_safety_score. Qed.

Lemma value_within (data : record) :
  within 0 100 (calculate_value_score float_of_str data).
Proof. ranges calculate_value_score. Qed.

Lemma dividend_within (data : record) :
  within 0 100 (calculate_dividend_score float_of_str data).
Proof. ranges calculate_dividend_score. Qed.

Lemma growth_within (data : record) :
  within 0 100 (calculate_growth_score float_of_str data).
Proof. ranges calculate_growth_score. Qed.

Lemma momentum_within (data : record) :
  within 0 100 (calculate_momentum_score float_of_str data).
Proof. ranges calculate_momentum_score. Qed.

End Ranges.

(** ** Grade and recommendation *)

Lemma generate_recommendation_labels c p a u :
  In (generate_recommendation c p a u) recommendations.
Proof.
  unfold generate_recommendation, recommendations.
  repeat match goal with
         | |- context [if ?c then _ else _] => destruct c
         end; cbn [In]; tauto.
Qed.

Ltac bands c :=
  rewrite ?(Z.geb_leb c);
  destruct (Z.leb_spec 80 c); [|destruct (Z.leb_spec 65 c);
    [|destruct (Z.leb_spec 50 c); [|destruct (Z.leb_spec 35 c)]]].

(** The letter of a grade whose adjustments are decided. *)
Ltac eval_grade :=
  match goal with
  | |- context [str_of_char ?c] =>
      let v := eval vm_compute in (str_of_char c) in
      change (str_of_char c) with v
  end.

(** X3: [determine_grade] returns the letter E exactly when the Altman
    value is below 1.81 and the grade before that adjustment is D: the
    composite is in [35, 50), or it is in [50, 65) with a Piotroski score
    of at most 3.  In every other case the grade is one of A, B, C, D,
    F. *)
Theorem determine_grade_letter_E (composite piotroski : Z) (altman : float) :
  (determine_grade composite piotroski altman = "E"%string <->
   (altman <? dec 181 2)%F = true /\
   (35 <= composite < 50 \/ (50 <= composite < 65 /\ piotroski <= 3))) /\
  (In (determine_grade composite piotroski altman) grade_alphabet <->
   determine_grade composite piotroski altman <> "E"%string).
Proof.
  unfold determine_grade, grade_alphabet.
  rewrite !(Z.geb_leb piotroski).
  destruct (Z.leb_spec 7 piotroski), (Z.leb_spec piotroski 3),
    (altman <? dec 181 2)%F;
    bands composite; try (exfalso; lia); eval_grade;
    (split; split; [try discriminate| | |]);
    try solve [intros _; split; [reflexivity|lia]
              | intros [? ?]; lia
              | intros [? ?]; discriminate
              | intros [? ?]; reflexivity
              | intros _; discriminate
              | intros _; cbn [In]; tauto
              | intros Hne; exfalso; apply Hne; reflexivity
              | cbn [In]; intros Hin;
                repeat (destruct Hin as [Hin|Hin]; [discriminate Hin|]);
                contradiction ].
Qed.

(** X4: the recommendation is "Strong Buy" exactly when the Altman value
    is not below 1.5, the composite is at least 75, the Piotroski score at
    least 7 and the Graham upside above 20. *)
Theorem strong_buy_conditions
    (composite piotroski : Z) (altman graham_upside : float) :
  generate_recommendation composite piotroski altman graham_upside
    = "Strong Buy"%string <->
  (altman <? dec 15 1)%F = false /\ 75 <= composite /\ 7 <= piotroski /\
  (graham_upside >? of_Z 20)%F = true.
Proof.
  unfold generate_recommendation.
  rewrite !(Z.geb_leb composite), !(Z.geb_leb piotroski).
  destruct (altman <? dec 15 1)%F.
  { split; [discriminate|]. intros [H _]. discriminate H. }
  destruct (Z.leb_spec piotroski 2).
  { split; [discriminate|]. lia. }
  destruct (Z.leb_spec 75 composite), (Z.leb_spec 7 piotroski),
    (graham_upside >? of_Z 20)%F; cbn [andb];
    (split;
     [ intros Hs; first
         [ repeat split; first [reflexivity | lia]
         | exfalso; revert Hs;
           repeat match goal with
                  | |- context [if ?c then _ else _] => destruct c
                  end; discriminate ]
     | intros (_ & ? & ? & ?); first [reflexivity | lia | discriminate] ]).
Qed.

(** What the grade can be under the two extreme recommendations. *)
Lemma strong_buy_grade
    (composite piotroski : Z) (altman graham_upside : float) :
  (generate_recommendation composite piotroski altman graham_upside
     = "Strong Buy"%string ->
   In (determine_grade composite piotroski altman) ["A"; "B"]%string) /\
  (generate_recommendation composite piotroski altman graham_upside
     = "Avoid - High Bankruptcy Risk"%string ->
   determine_grade composite piotroski altman <> "A"%string).
Proof.
  split.
  - intros H.
    assert (Hcp : 75 <= composite /\ 7 <= piotroski).
    { unfold generate_recommendation in H.
      rewrite !(Z.geb_leb composite), !(Z.geb_leb piotroski) in H.
      destruct (altman <? dec 15 1)%F; [discriminate H|].
      destruct (Z.leb_spec piotroski 2); [discriminate H|].
      destruct (Z.leb_spec 75 composite), (Z.leb_spec 7 piotroski);
        try (split; lia); exfalso; cbn [andb] in H;
        repeat match type of H with
               | (if ?c then _ else _) = _ => destruct c
               end; discriminate H. }
    destruct Hcp as [Hc Hp].
    unfold determine_grade. rewrite !(Z.geb_leb piotroski).
    destruct (Z.leb_spec 7 piotroski), (Z.leb_spec piotroski 3),
      (altman <? dec 181 2)%F;
      bands composite; try (exfalso; lia); eval_grade; cbn [In]; tauto.
  - intros H.
    assert (Ha : (altman <? dec 15 1)%F = true).
    { unfold generate_recommendation in H.
      destruct (altman <? dec 15 1)%F; [reflexivity|].
      repeat match type of H with
             | (if ?c then _ else _) = _ => destruct c
             end; discriminate H. }
    apply lt_15_lt_181 in Ha.
    unfold determine_grade. rewrite Ha. rewrite !(Z.geb_leb piotroski).
    destruct (Z.leb_spec 7 piotroski), (Z.leb_spec piotroski 3);
      bands composite; try (exfalso; lia); eval_grade; discriminate.
Qed.

(** ** The analysis of a company *)

Section Invariants.

Variable float_of_str : string -> option float.
Variable pow_half : float -> float.

Ltac coerce Hrec :=
  match goal with
  | |- context [_get_float float_of_str ?data ?k ?d] =>
      let x := fresh "x" in
      let V := fresh "V" in
      destruct (get_float_numeric float_of_str data k d Hrec) as (x & -> & V);
      [reflexivity|rewrite bind_Some; cbv beta]
  end.

Ltac coerce_as Hrec x V :=
  lazymatch goal with
  | |- context [_get_float float_of_str ?data ?k ?d ≫= _] =>
      destruct (get_float_numeric float_of_str data k d Hrec) as (x & -> & V);
      [reflexivity|rewrite bind_Some; cbv beta]
  end.

Ltac take H x E :=
  match type of H with
  | (?e ≫= _) = Some _ =>
      destruct e as [x|] eqn:E;
        [rewrite bind_Some in H; cbv beta in H|discriminate H]
  end.

(** X5: for every record whose present values are numeric,
    [calculate_piotroski_f_score] returns an integer between 0 and 9. *)
Theorem piotroski_score_range (data : record) :
  numeric_record data ->
  exists n, calculate_piotroski_f_score float_of_str data = Some n /\
            0 <= n <= 9.
Proof.
  intros Hrec.
  assert (T : exists n, calculate_piotroski_f_score float_of_str data = Some n).
  { cbv delta [calculate_piotroski_f_score]. cbv beta.
    repeat coerce Hrec. eexists. reflexivity. }
  destruct T as (n & E). exists n. split; [assumption|].
  pose proof (piotroski_within float_of_str data) as W.
  rewrite E in W. exact W.
Qed.


(** X7: for every record whose present values are numeric and every
    Graham number, [calculate_graham_upside] returns a value, and that
    value is 0 unless both the price and the Graham number are positive:
    the division by the price is guarded. *)
Theorem graham_upside_guarded (data : record) (graham : float) :
  numeric_record data ->
  exists price upside,
    _get_float float_of_str data "last_traded_price" (of_Z 0) = Some price /\
    calculate_graham_upside float_of_str pow_half data (Some graham) = Some upside /\
    ((price >? of_Z 0)%F && (graham >? of_Z 0)%F = false ->
     upside = of_Z 0).
Proof.
  intros Hrec. cbv delta [calculate_graham_upside]. cbv beta iota.
  rewrite bind_Some. cbv beta.
  coerce_as Hrec price Vp. exists price.
  destruct (price >? of_Z 0)%F eqn:Hp.
  - rewrite (py_div_Some _ _ (gt_zero_nonzero _ Hp)), bind_Some. cbv beta zeta.
    rewrite andb_true_l.
    destruct (graham >? of_Z 0)%F; eexists;
      (split; [reflexivity|split; [reflexivity|]]); [discriminate|reflexivity].
  - rewrite andb_false_l. eexists. split; [reflexivity|].
    split; reflexivity.
Qed.

(** X8: a record whose ROE is NaN, as the row of a table with a missing
    cell is, makes [calculate_magic_formula_rank] raise: the NaN reaches
    [int(total_score)].  [analyze_company] calls it and raises too. *)
Theorem analyze_company_raises_on_nan_roe (data : record) :
  data !! "roe"%string = Some (PyFloat S754_nan) ->
  calculate_magic_formula_rank float_of_str data = None /\
  analyze_company float_of_str pow_half data = None.
Proof.
  intros Hroe.
  assert (M : calculate_magic_formula_rank float_of_str data = None).
  { cbv delta [calculate_magic_formula_rank]. cbv beta.
    destruct (_get_float float_of_str data "pe_ratio" (of_Z 20)) as [pe|];
      [rewrite bind_Some; cbv beta|reflexivity].
    match goal with
    | |- (?e ≫= _) = None =>
        destruct e as [earnings_yield|];
          [rewrite bind_Some; cbv beta|reflexivity]
    end.
    replace (_get_float float_of_str data "roe" (of_Z 10))
      with (Some S754_nan) by (unfold _get_float; now rewrite Hroe).
    rewrite bind_Some. cbv beta.
    destruct (_get_float float_of_str data "debt_equity" (dec 5 1))
      as [debt_equity|]; [rewrite bind_Some; cbv beta|reflexivity].
    assert (R : forall k : float -> option Z,
               k S754_nan = None ->
               ((if (debt_equity >? of_Z 0)%F
                 then py_div S754_nan (of_Z 1 + debt_equity)%F
                 else Some S754_nan) ≫= k) = None).
    { intros k Hk. destruct (debt_equity >? of_Z 0)%F; [|exact Hk].
      unfold py_div. destruct (_ =? zero)%F; [reflexivity|].
      rewrite div_nan_l. exact Hk. }
    apply R. cbv beta.
    rewrite (py_div_Some _ (of_Z 20)) by reflexivity.
    rewrite bind_Some. cbv beta zeta.
    rewrite (py_div_Some _ (of_Z 30)) by reflexivity.
    rewrite bind_Some. cbv beta.
    replace (fmin S754_nan (of_Z 30)) with S754_nan by reflexivity.
    rewrite div_nan_l.
    replace (S754_nan * of_Z 50)%F with S754_nan by reflexivity.
    rewrite add_nan_r. reflexivity. }
  split; [exact M|].
  cbv delta [analyze_company]. cbv beta. rewrite M.
  repeat match goal with
         | |- (None ≫= _) = None => reflexivity
         | |- (?e ≫= _) = None =>
             destruct e; [rewrite bind_Some; cbv beta|reflexivity]
         end.
Qed.

(** X9: whenever [analyze_company] returns, whatever the record holds,
    the Piotroski score is in 0..9, the Magic Formula rank in 1..100, the
    six sub-scores and the composite score in 0..100, the grade is one of
    the letters A to F and the recommendation one of the seven labels. *)
Theorem analyze_company_ranges (data : record) (r : InvestmentScores) :
  analyze_company float_of_str pow_half data = Some r ->
  0 <= piotroski_f_score r <= 9 /\
  1 <= magic_formula_rank r <= 100 /\
  0 <= quality_score r <= 100 /\
  0 <= safety_score r <= 100 /\
  0 <= value_score r <= 100 /\
  0 <= dividend_score r <= 100 /\
  0 <= growth_score r <= 100 /\
  0 <= momentum_score r <= 100 /\
  0 <= composite_score r <= 100 /\
  In (investment_grade r) grade_letters /\
  In (recommendation r) recommendations.
Proof.
  intros H. cbv delta [analyze_company] in H. cbv beta in H.
  pose proof (piotroski_within float_of_str data) as Wp.
  pose proof (magic_formula_within float_of_str data) as Wr.
  pose proof (quality_within float_of_str data) as Wq.
  pose proof (safety_within float_of_str data) as Ws.
  pose proof (value_within float_of_str data) as Wv.
  pose proof (dividend_within float_of_str data) as Wd.
  pose proof (growth_within float_of_str data) as Wg.
  pose proof (momentum_within float_of_str data) as Wm.
  take H p Ep. take H a Ea. take H gn Egn. take H gu Egu. take H k Ek.
  take H q Eqs. take H s Es. take H v Ev. take H d Ed. take H g Eg.
  take H m Em. take H c Ec.
  cbv zeta in H. apply Some_eq_inv in H. subst r.
  cbn [piotroski_f_score magic_formula_rank
    quality_score safety_score value_score dividend_score growth_score
    momentum_score composite_score investment_grade recommendation].
  cbn [within] in *.
  destruct (score_kwargs_lookup v q s d g m) as (Lv & Lq & Ls & Ld & Lg & Lm).
  destruct (composite_spec _ v q s d g m Lv Lq Ls Ld Lg Lm Wv Wq Ws Wd Wg Wm)
    as (c' & Ec' & Hc & _).
  change (score_kwargs v q s d g m) with
    (<["value" := v]> (<["quality" := q]> (<["safety" := s]>
     (<["dividend" := d]> (<["growth" := g]>
      (<["momentum" := m]> (∅ : gmap string Z))))))) in Ec'.
  rewrite Ec in Ec'. apply Some_eq_inv in Ec'. subst c'.
  repeat split; try lia.
  - apply determine_grade_letters.
  - apply generate_recommendation_labels.
Qed.

(** X10: in the result of [analyze_company] a "Strong Buy" recommendation
    always comes with the grade A or B, and the bankruptcy-risk
    recommendation never comes with the grade A: an Altman value below
    1.5 is below the 1.81 of the grade adjustment. *)
Theorem analysis_grade_matches_recommendation
    (data : record) (r : InvestmentScores) :
  analyze_company float_of_str pow_half data = Some r ->
  (recommendation r = "Strong Buy"%string ->
   In (investment_grade r) ["A"; "B"]%string) /\
  (recommendation r = "Avoid - High Bankruptcy Risk"%string ->
   investment_grade r <> "A"%string).
Proof.
  intros H. cbv delta [analyze_company] in H. cbv beta in H.
  repeat match type of H with
         | (?e ≫= _) = Some _ =>
             destruct e;
               [rewrite bind_Some in H; cbv beta in H|discriminate H]
         end.
  cbv zeta in H. apply Some_eq_inv in H. subst r.
  cbn [investment_grade recommendation]. apply strong_buy_grade.
Qed.

End Invariants.

Lemma strong_record_numeric : numeric_record strong_record.
Proof.
  intros k v H. unfold strong_record in H.
  repeat (apply lookup_insert_Some in H as [[_ <-]|[_ H]]; [reflexivity|]).
  discriminate H.
Qed.

Lemma distressed_record_numeric : numeric_record distressed_record.
Proof.
  intros k v H. unfold distressed_record in H.
  repeat (apply lookup_insert_Some in H as [[_ <-]|[_ H]]; [reflexivity|]).
  discriminate H.
Qed.

Lemma piotroski_score_range_witness :
  exists n, calculate_piotroski_f_score (fun _ => None) strong_record = Some n /\
            0 <= n <= 9.
Proof.
  apply (piotroski_score_range (fun _ => None) strong_record).
  exact strong_record_numeric.
Defined.


Lemma graham_upside_guarded_witness :
  exists price upside,
    _get_float (fun _ => None) strong_record "last_traded_price" (of_Z 0)
      = Some price /\
    calculate_graham_upside (fun _ => None) sqrt strong_record (Some (dec 9487 2))
      = Some upside /\
    ((price >? of_Z 0)%F && (dec 9487 2 >? of_Z 0)%F = false ->
     upside = of_Z 0).
Proof.
  apply (graham_upside_guarded (fun _ => None) sqrt strong_record (dec 9487 2)).
  exact strong_record_numeric.
Defined.

Lemma analyze_company_raises_on_nan_roe_witness :
  calculate_magic_formula_rank (fun _ => None) nan_roe_record = None /\
  analyze_company (fun _ => None) sqrt nan_roe_record = None.
Proof.
  apply (analyze_company_raises_on_nan_roe (fun _ => None) sqrt nan_roe_record).
  reflexivity.
Defined.

Lemma analyze_company_ranges_witness :
  exists r,
    analyze_company (fun _ => None) sqrt strong_record = Some r /\
    0 <= piotroski_f_score r <= 9 /\
    1 <= magic_formula_rank r <= 100 /\
    0 <= quality_score r <= 100 /\
    0 <= safety_score r <= 100 /\
    0 <= value_score r <= 100 /\
    0 <= dividend_score r <= 100 /\
    0 <= growth_score r <= 100 /\
    0 <= momentum_score r <= 100 /\
    0 <= composite_score r <= 100 /\
    In (investment_grade r) grade_letters /\
    In (recommendation r) recommendations.
Proof.
  eexists. split; [vm_compute; reflexivity|].
  apply (analyze_company_ranges (fun _ => None) sqrt strong_record).
  vm_compute. reflexivity.
Defined.

Lemma analysis_grade_matches_recommendation_witness :
  exists r,
    analyze_company (fun _ => None) sqrt strong_record = Some r /\
    recommendation r = "Strong Buy"%string /\
    (recommendation r = "Strong Buy"%string ->
     In (investment_grade r) ["A"; "B"]%string) /\
    (recommendation r = "Avoid - High Bankruptcy Risk"%string ->
     investment_grade r <> "A"%string).
Proof.
  eexists. split; [vm_compute; reflexivity|]. split; [reflexivity|].
  apply (analysis_grade_matches_recommendation (fun _ => None) sqrt strong_record).
  vm_compute. reflexivity.
Defined.

(** ** The composite and the value score *)

Lemma sum_weighted_ext (s1 s2 : gmap string Z) (ws : list (string * float)) :
  (forall k, In k (map fst ws) -> score_of s1 k = score_of s2 k) ->
  forall acc, sum_weighted s1 ws acc = sum_weighted s2 ws acc.
Proof.
  induction ws as [|[key w] ws IH]; intros H acc; [reflexivity|].
  cbn [sum_weighted].
  change (match s1 !! key with Some v => v | None => 50 end)
    with (score_of s1 key).
  change (match s2 !! key with Some v => v | None => 50 end)
    with (score_of s2 key).
  rewrite (H key) by (left; reflexivity).
  destruct (float_of_int (score_of s2 key)) as [x|]; [|reflexivity].
  rewrite !bind_Some. apply IH. intros k Hk. apply H. now right.
Qed.

(** X11: the composite score depends on its keyword arguments only
    through the six weighted keys, an absent one counting as 50: two sets
    of arguments that agree on them give the same composite, whatever
    other keys they hold. *)
Theorem composite_depends_on_six_scores (s1 s2 : gmap string Z) :
  (forall k, In k (map fst weights) -> score_of s1 k = score_of s2 k) ->
  calculate_composite_score s1 = calculate_composite_score s2.
Proof.
  intros H. unfold calculate_composite_score.
  now rewrite (sum_weighted_ext s1 s2 weights H).
Qed.

Lemma composite_depends_on_six_scores_witness :
  calculate_composite_score (<["value" := 80]> ∅)
    = calculate_composite_score
        (<["value" := 80]> (<["quality" := 50]> (<["sector" := 7]> ∅))).
Proof.
  apply (composite_depends_on_six_scores
           (<["value" := 80]> ∅)
           (<["value" := 80]> (<["quality" := 50]> (<["sector" := 7]> ∅)))).
  cbn [map fst weights In]. intros k Hk.
  repeat (destruct Hk as [<-|Hk]; [reflexivity|]). contradiction.
Defined.

Section Value.

Variable float_of_str : string -> option float.

Lemma get_float_insert_ne (data : record) (k k' : string) (v : py_value)
    (d : float) :
  k <> k' ->
  _get_float float_of_str (<[k := v]> data) k' d
    = _get_float float_of_str data k' d.
Proof. intros Hk. unfold _get_float. now rewrite lookup_insert_ne. Qed.

(** X12: a P/E ratio that is zero or negative is scored by
    [calculate_value_score] exactly as a P/E ratio of 10: the first test
    of the ladder asks for a positive ratio, the second only for a ratio
    of at most 10. *)
Theorem value_score_nonpositive_pe (data : record) (pe : float) :
  (pe <=? of_Z 0)%F = true ->
  calculate_value_score float_of_str (<["pe_ratio" := PyFloat pe]> data)
    = calculate_value_score float_of_str (<["pe_ratio" := PyInt 10]> data).
Proof.
  intros Hpe. destruct (leb_zero_cases pe Hpe) as [H0 H10].
  cbv delta [calculate_value_score]. cbv beta.
  replace (_get_float float_of_str (<["pe_ratio" := PyFloat pe]> data)
             "pe_ratio" (of_Z 30)) with (Some pe)
    by (unfold _get_float; now rewrite lookup_insert_eq).
  replace (_get_float float_of_str (<["pe_ratio" := PyInt 10]> data)
             "pe_ratio" (of_Z 30)) with (Some (of_Z 10))
    by (unfold _get_float; now rewrite lookup_insert_eq).
  rewrite !bind_Some. cbv beta.
  rewrite !get_float_insert_ne by discriminate.
  destruct (_get_float float_of_str data "pb_ratio" (of_Z 3)) as [pb|];
    [rewrite !bind_Some; cbv beta|reflexivity].
  destruct (_get_float float_of_str data "dividend_yield" (of_Z 0)) as [dy|];
    [rewrite !bind_Some; cbv beta|reflexivity].
  cbv zeta. rewrite H0, H10.
  replace (of_Z 0 <? of_Z 10)%F with true by reflexivity.
  replace (of_Z 10 <=? of_Z 8)%F with false by reflexivity.
  replace (of_Z 10 <=? of_Z 10)%F with true by reflexivity.
  reflexivity.
Qed.

End Value.

Lemma value_score_nonpositive_pe_witness :
  calculate_value_score (fun _ => None)
      (<["pe_ratio" := PyFloat (dec (-42) 1)]> ∅)
    = calculate_value_score (fun _ => None) (<["pe_ratio" := PyInt 10]> ∅).
Proof.
  apply (value_score_nonpositive_pe (fun _ => None) ∅ (dec (-42) 1)).
  reflexivity.
Defined.

(** ** Criteria and strategies *)

Module StrategyFacts.
Import Screener.

Lemma apply_criterion_columns (df : DataFrame) (c : ScreeningCriteria) :
  columns (_apply_criterion df c) = columns df.
Proof. unfold _apply_criterion. now destruct (negb _). Qed.

Lemma apply_criterion_rows (df : DataFrame) (c : ScreeningCriteria) :
  rows (_apply_criterion df c)
    = List.filter (fun r => negb (has_column df (column c)) || mask c r)
        (rows df).
Proof.
  unfold _apply_criterion. destruct (has_column df (column c)); cbn [negb orb].
  - reflexivity.
  - now rewrite List.filter_true.
Qed.

Lemma frame_eq (d1 d2 : DataFrame) :
  columns d1 = columns d2 -> rows d1 = rows d2 -> d1 = d2.
Proof. destruct d1, d2. cbn. now intros -> ->. Qed.

Lemma has_column_apply (df : DataFrame) (c : ScreeningCriteria) (col : string) :
  has_column (_apply_criterion df c) col = has_column df col.
Proof. unfold has_column. now rewrite apply_criterion_columns. Qed.

(** X13: whatever its operator is, a criterion applied twice does what
    it does applied once, and two criteria can be applied in either
    order. *)
Theorem apply_criterion_idempotent_commutes
    (df : DataFrame) (c1 c2 : ScreeningCriteria) :
  _apply_criterion (_apply_criterion df c1) c1 = _apply_criterion df c1 /\
  _apply_criterion (_apply_criterion df c1) c2
    = _apply_criterion (_apply_criterion df c2) c1.
Proof.
  split; apply frame_eq; rewrite ?apply_criterion_columns; try reflexivity;
    rewrite !apply_criterion_rows, !ScreenerFacts.filter_conj;
    apply List.filter_ext; intros r; rewrite !has_column_apply.
  - now rewrite andb_diag.
  - apply andb_comm.
Qed.

Lemma filter_sublist {A : Type} (p : A -> bool) (l : list A) :
  sublist (List.filter p l) l.
Proof.
  induction l as [|x l IH]; [constructor|]. cbn [List.filter].
  destruct (p x); now constructor.
Qed.

Lemma fold_apply_criterion_sublist (cs : list ScreeningCriteria) :
  forall df : DataFrame,
    columns (fold_left _apply_criterion cs df) = columns df /\
    sublist (rows (fold_left _apply_criterion cs df)) (rows df).
Proof.
  induction cs as [|c cs IH]; intros df; cbn [fold_left]; [split; reflexivity|].
  destruct (IH (_apply_criterion df c)) as [Hc Hr]. split.
  - now rewrite Hc, apply_criterion_columns.
  - etransitivity; [exact Hr|]. rewrite apply_criterion_rows.
    apply filter_sublist.
Qed.

(** X14: whatever the criteria are, [screen] adds no row and reorders
    none: the rows of its result are rows of the table, in the order of
    the table.  The result is the empty table or has the columns of the
    table, and a screener without a table gives the empty table. *)
Theorem screen_keeps_order_and_columns
    (df : DataFrame) (cs : list ScreeningCriteria) :
  sublist (rows (screen (Some df) cs)) (rows df) /\
  (screen (Some df) cs = empty_frame \/
   columns (screen (Some df) cs) = columns df) /\
  screen None cs = empty_frame.
Proof.
  unfold screen. destruct (df_empty df).
  - split; [apply sublist_nil_l|]. split; [now left|reflexivity].
  - destruct (fold_apply_criterion_sublist cs df) as [Hc Hr].
    split; [exact Hr|]. split; [now right|reflexivity].
Qed.

Lemma lt_mask (c : ScreeningCriteria) (r : row) :
  operator c = "lt"%string ->
  mask c r = (cell r (column c) <? value c)%F.
Proof.
  intros Hop. unfold mask. rewrite Hop. cbn [String.eqb Ascii.eqb Bool.eqb].
  cbv iota.
  destruct (cell r (column c)) as [| | |]; reflexivity.
Qed.

Lemma screen_app (df : option DataFrame) (cs : list ScreeningCriteria)
    (c : ScreeningCriteria) :
  screen df (cs ++ [c]) = _apply_criterion (screen df cs) c.
Proof.
  unfold screen. destruct df as [d|]; [|reflexivity].
  destruct (df_empty d); [reflexivity|].
  rewrite fold_left_app. reflexivity.
Qed.

(** X15: the GARP strategy is the screen of its three criteria and of a
    fourth one, a PEG ratio below the threshold 1.0: the filter the
    strategy applies afterwards, when the table has the column, does what
    an [lt] criterion does. *)
Theorem screen_garp_as_criteria (df : option DataFrame) :
  screen_garp df
    = screen df (garp_criteria
                   ++ [new_criterion "PEG" "peg_ratio" "lt" peg_ratio_max]).
Proof.
  unfold screen_garp. cbv zeta. rewrite screen_app.
  set (result := screen df garp_criteria).
  cbn [column new_criterion].
  assert (H : _apply_criterion result
                (new_criterion "PEG" "peg_ratio" "lt" peg_ratio_max)
              = if has_column result "peg_ratio"
                then select_lt result "peg_ratio" peg_ratio_max
                else result).
  { unfold _apply_criterion. cbn [column new_criterion].
    destruct (has_column result "peg_ratio"); cbn [negb]; [|reflexivity].
    unfold select_lt. f_equal. apply List.filter_ext. intros r.
    now rewrite lt_mask. }
  now rewrite H.
Qed.

End StrategyFacts.

(** ** Cash flow and earnings quality *)

Module QualityFacts.
Import Metrics.

(** X16: [_calculate_quality_metrics] returns exactly when the table has
    the columns [total_assets] and [fcf_to_net_income]; without one of
    them it raises [KeyError], the [df.get] of the test not protecting the
    [df[...]] of the quotient. *)
Theorem quality_metrics_columns (r : row) :
  is_Some (_calculate_quality_metrics r) <->
  is_Some (r !! "total_assets") /\ is_Some (r !! "fcf_to_net_income").
Proof.
  cbv delta [_calculate_quality_metrics]. cbv beta.
  destruct (r !! "total_assets") as [ta|] eqn:Eta.
  - rewrite bind_Some. cbv beta zeta.
    rewrite !lookup_insert_ne by discriminate.
    destruct (r !! "fcf_to_net_income") as [fcf|].
    + rewrite bind_Some. split; eauto.
    + split; [intros [? H]; discriminate H|intros [_ [? H]]; discriminate H].
  - split; [intros [? H]; discriminate H|intros [[? H] _]; discriminate H].
Qed.

Lemma fcf_to_net_income_ext (r r' : row) :
  r' !! "net_profit" = r !! "net_profit" ->
  r' !! "free_cash_flow" = r !! "free_cash_flow" ->
  fcf_to_net_income r' = fcf_to_net_income r.
Proof. intros H1 H2. unfold fcf_to_net_income, get0. now rewrite H1, H2. Qed.

Lemma cashflow_metrics_spec (r : row) :
  match _calculate_cashflow_metrics r with
  | Some r1 =>
      Forall (fun c => is_Some (r !! c)) cashflow_columns /\
      r1 !! "fcf_to_net_income" = fcf_to_net_income r /\
      r1 !! "total_assets" = r !! "total_assets"
  | None => ~ Forall (fun c => is_Some (r !! c)) cashflow_columns
  end.
Proof.
  assert (N : forall c, In c cashflow_columns -> r !! c = None ->
              ~ Forall (fun c => is_Some (r !! c)) cashflow_columns).
  { intros c Hin Hc HF. rewrite List.Forall_forall in HF.
    destruct (HF c Hin) as [x Hx]. congruence. }
  cbv delta [_calculate_cashflow_metrics]. cbv beta.
  destruct (r !! "revenue") as [revenue|] eqn:E1;
    [|apply (N "revenue"%string); [cbn; tauto|assumption]].
  rewrite bind_Some. cbv beta zeta.
  rewrite !(lookup_insert_ne _ "ocf_margin") by discriminate.
  destruct (r !! "total_debt") as [total_debt|] eqn:E2;
    [|apply (N "total_debt"%string); [cbn; tauto|assumption]].
  rewrite bind_Some. cbv beta.
  rewrite !(lookup_insert_ne _ "cf_to_debt") by discriminate.
  rewrite !(lookup_insert_ne _ "ocf_margin") by discriminate.
  destruct (r !! "market_cap") as [market_cap|] eqn:E3;
    [|apply (N "market_cap"%string); [cbn; tauto|assumption]].
  rewrite bind_Some. cbv beta.
  destruct (r !! "last_traded_price") as [ltp|] eqn:E4;
    [|apply (N "last_traded_price"%string); [cbn; tauto|assumption]].
  rewrite bind_Some. cbv beta.
  match goal with
  | |- context [fcf_to_net_income ?r'] =>
      rewrite (fcf_to_net_income_ext r r')
        by (rewrite !lookup_insert_ne by discriminate; reflexivity)
  end.
  unfold fcf_to_net_income at 1.
  destruct (r !! "net_profit") as [net_profit|] eqn:E5;
    [|apply (N "net_profit"%string); [cbn; tauto|assumption]].
  rewrite !bind_Some. cbv beta.
  rewrite !(lookup_insert_ne _ _ "total_assets") by discriminate.
  destruct (r !! "total_assets") as [total_assets|] eqn:E6;
    [|apply (N "total_assets"%string); [cbn; tauto|assumption]].
  rewrite bind_Some. cbv beta. split; [|split].
  - unfold cashflow_columns. repeat constructor; eauto.
  - rewrite lookup_insert_ne by discriminate. rewrite lookup_insert_eq.
    unfold fcf_to_net_income. rewrite E5. reflexivity.
  - now rewrite !lookup_insert_ne by discriminate.
Qed.

(** X17: [_calculate_cashflow_metrics] returns exactly when the table has
    the six columns revenue, total_debt, market_cap, last_traded_price,
    net_profit and total_assets; without one of them it raises
    [KeyError], also when the table has a [shares_outstanding] column. *)
Theorem cashflow_metrics_columns (r : row) :
  is_Some (_calculate_cashflow_metrics r) <->
  Forall (fun c => is_Some (r !! c)) cashflow_columns.
Proof.
  pose proof (cashflow_metrics_spec r) as H.
  destruct (_calculate_cashflow_metrics r) as [r1|].
  - split; [intros _; apply H|eauto].
  - split; [intros [? E]; discriminate E|intros HF; contradiction].
Qed.

Lemma earnings_quality_spec (r : row) (ta fcf : float) :
  r !! "total_assets" = Some ta -> r !! "fcf_to_net_income" = Some fcf ->
  exists r' n,
    _calculate_quality_metrics r = Some r' /\
    r' !! "earnings_quality" = Some (of_Z n) /\
    r' !! "sloan_ratio" = r' !! "accruals_ratio" /\
    In n earnings_quality_values /\
    ((fcf >? of_Z 80)%F = false -> In n [50; 65; 70]).
Proof.
  intros Hta Hfcf.
  cbv delta [_calculate_quality_metrics]. cbv beta.
  rewrite Hta, bind_Some. cbv beta.
  match goal with
  | |- context [let a := ?v in _] => generalize v; intros accruals; cbv zeta
  end.
  rewrite !lookup_insert_ne by discriminate. rewrite Hfcf, bind_Some.
  eexists. eexists. split; [reflexivity|].
  rewrite lookup_insert_eq.
  rewrite !(lookup_insert_ne _ "earnings_quality") by discriminate.
  rewrite lookup_insert_eq, lookup_insert_ne, lookup_insert_eq by discriminate.
  split; [reflexivity|]. split; [reflexivity|].
  pose proof (gt_100_gt_80 fcf) as Hf.
  pose proof (lt_002_lt_005 accruals) as Ha.
  destruct (fcf >? of_Z 100)%F; [rewrite Hf by reflexivity|];
    (destruct (abs accruals <? dec 2 2)%F; [rewrite Ha by reflexivity|]);
    clear Hf Ha;
    repeat match goal with
           | |- context [if ?c then _ else _] => destruct c
           end;
    (split;
     [vm_compute; tauto
     |intros Hx; first [discriminate Hx|vm_compute; tauto]]).
Qed.

(** X18: on a table that has the two columns it reads,
    [_calculate_quality_metrics] sets an earnings-quality score that is
    one of 50, 65, 70, 80, 85, 90, 95, 100: never below the base 50 and
    never above 100, so the final clip changes nothing; the Sloan ratio
    it sets is the accruals ratio. *)
Theorem earnings_quality_values_only (r : row) :
  is_Some (r !! "total_assets") -> is_Some (r !! "fcf_to_net_income") ->
  exists r' n,
    _calculate_quality_metrics r = Some r' /\
    r' !! "earnings_quality" = Some (of_Z n) /\
    In n earnings_quality_values /\
    r' !! "sloan_ratio" = r' !! "accruals_ratio".
Proof.
  intros [ta Hta] [fcf Hfcf].
  destruct (earnings_quality_spec r ta fcf Hta Hfcf)
    as (r' & n & E & Hq & Hs & Hn & _).
  exists r', n. auto.
Qed.

(** X19: the cash-flow step followed by the quality step, on a table with
    the six columns the first reads: where the net profit is not positive
    the ratio of free cash flow to net income is set to 0, and the
    earnings-quality score is 50, 65 or 70, without either cash-flow
    bonus. *)
Theorem earnings_quality_without_profit (r : row) :
  Forall (fun c => is_Some (r !! c)) cashflow_columns ->
  (get0 r "net_profit" >? of_Z 0)%F = false ->
  exists r1 r2 n,
    _calculate_cashflow_metrics r = Some r1 /\
    _calculate_quality_metrics r1 = Some r2 /\
    r1 !! "fcf_to_net_income" = Some (of_Z 0) /\
    r2 !! "earnings_quality" = Some (of_Z n) /\ In n [50; 65; 70].
Proof.
  intros HF Hnp.
  pose proof (cashflow_metrics_spec r) as H.
  destruct (_calculate_cashflow_metrics r) as [r1|]; [|contradiction].
  destruct H as (_ & Hfcf & Hta).
  rewrite List.Forall_forall in HF.
  destruct (HF "net_profit"%string) as [np Hnp']; [cbn; tauto|].
  destruct (HF "total_assets"%string) as [ta Hta']; [cbn; tauto|].
  assert (F : r1 !! "fcf_to_net_income" = Some (of_Z 0)).
  { rewrite Hfcf. unfold fcf_to_net_income. rewrite Hnp', bind_Some, Hnp.
    reflexivity. }
  rewrite Hta' in Hta.
  destruct (earnings_quality_spec r1 ta (of_Z 0) Hta F)
    as (r2 & n & E & Hq & _ & _ & Hn).
  exists r1, r2, n. repeat split; try assumption. now apply Hn.
Qed.

Lemma loss_row_columns :
  Forall (fun c => is_Some (loss_row !! c)) cashflow_columns.
Proof. repeat constructor; eexists; reflexivity. Qed.

Lemma earnings_quality_values_only_witness :
  exists r' n,
    _calculate_quality_metrics cash_rich_row = Some r' /\
    r' !! "earnings_quality" = Some (of_Z n) /\
    In n earnings_quality_values /\
    r' !! "sloan_ratio" = r' !! "accruals_ratio".
Proof.
  apply (earnings_quality_values_only cash_rich_row); eexists; reflexivity.
Defined.

Lemma earnings_quality_without_profit_witness :
  exists r1 r2 n,
    _calculate_cashflow_metrics loss_row = Some r1 /\
    _calculate_quality_metrics r1 = Some r2 /\
    r1 !! "fcf_to_net_income" = Some (of_Z 0) /\
    r2 !! "earnings_quality" = Some (of_Z n) /\ In n [50; 65; 70].
Proof.
  apply (earnings_quality_without_profit loss_row);
    [exact loss_row_columns|reflexivity].
Defined.

End QualityFacts.

(** ** Monotonicity *)

(** The comparisons of binary64 are transitive on every triple: a
    comparison that holds involves no NaN, and on the others the order is
    the lexicographic one of sign, exponent and mantissa. *)

Lemma compare_cont_spec (m1 m2 : positive) :
  CompareSpec (m1 = m2) (m1 < m2)%positive (m2 < m1)%positive
    (PosDef.Pos.compare_cont Eq m1 m2).
Proof. exact (Pos.compare_spec m1 m2). Qed.

Ltac order_cases :=
  repeat match goal with
         | H : context [Z.compare ?a ?b] |- _ =>
             destruct (Z.compare_spec a b)
         | |- context [Z.compare ?a ?b] =>
             destruct (Z.compare_spec a b)
         | H : context [PosDef.Pos.compare_cont Eq ?a ?b] |- _ =>
             destruct (compare_cont_spec a b)
         | |- context [PosDef.Pos.compare_cont Eq ?a ?b] =>
             destruct (compare_cont_spec a b)
         end.

Ltac order_solve :=
  unfold leb, ltb, SFleb, SFltb, SFcompare;
  intros; first
    [ reflexivity
    | discriminate
    | order_cases; cbn [CompOpp] in *; subst;
      first [reflexivity | discriminate | exfalso; lia] ].

Lemma leb_trans (a b c : float) :
  (a <=? b)%F = true -> (b <=? c)%F = true -> (a <=? c)%F = true.
Proof.
  destruct a as [[]|[]| |[] ma ea], b as [[]|[]| |[] mb eb],
    c as [[]|[]| |[] mc ec]; order_solve.
Qed.

Lemma ltb_leb_trans (a b c : float) :
  (a <? b)%F = true -> (b <=? c)%F = true -> (a <? c)%F = true.
Proof.
  destruct a as [[]|[]| |[] ma ea], b as [[]|[]| |[] mb eb],
    c as [[]|[]| |[] mc ec]; order_solve.
Qed.

Lemma leb_ltb_trans (a b c : float) :
  (a <=? b)%F = true -> (b <? c)%F = true -> (a <? c)%F = true.
Proof.
  destruct a as [[]|[]| |[] ma ea], b as [[]|[]| |[] mb eb],
    c as [[]|[]| |[] mc ec]; order_solve.
Qed.

(** X20: for a fixed composite score, a higher Piotroski score together
    with a higher Altman value never yields a worse grade: the grade for
    [p2] and [a2] ranks at or before the grade for [p1] and [a1] whenever
    [p1 <= p2] and [a1 <= a2]. *)
Theorem determine_grade_monotone_health
    (composite p1 p2 : Z) (a1 a2 : float) :
  p1 <= p2 -> (a1 <=? a2)%F = true ->
  grade_rank (determine_grade composite p2 a2)
    <= grade_rank (determine_grade composite p1 a1).
Proof.
  intros Hp Ha.
  pose proof (leb_ltb_trans a1 a2 (dec 181 2) Ha) as Hd.
  unfold determine_grade.
  rewrite !(Z.geb_leb p1), !(Z.geb_leb p2).
  destruct (Z.leb_spec 7 p1), (Z.leb_spec p1 3),
    (Z.leb_spec 7 p2), (Z.leb_spec p2 3); try (exfalso; lia);
    (destruct (a2 <? dec 181 2)%F; [rewrite Hd by reflexivity|];
     [|destruct (a1 <? dec 181 2)%F]);
    clear Hd; bands composite;
    solve [exfalso; lia | vm_compute; discriminate].
Qed.

Section Monotone.

Variable float_of_str : string -> option float.

Ltac split_ifs_eq :=
  repeat match goal with
         | |- context [if ?c then _ else _] => destruct c eqn:?
         end.

Ltac contra :=
  match goal with
  | H1 : (?t <=? ?x)%F = true, H2 : (?t <=? ?y)%F = false,
    Hxy : (?x <=? ?y)%F = true |- _ =>
      rewrite (leb_trans t x y H1 Hxy) in H2; discriminate H2
  | H1 : (?t <? ?x)%F = true, H2 : (?t <? ?y)%F = false,
    Hxy : (?x <=? ?y)%F = true |- _ =>
      rewrite (ltb_leb_trans t x y H1 Hxy) in H2; discriminate H2
  | H1 : (?x <=? ?t)%F = true, H2 : (?y <=? ?t)%F = false,
    Hyx : (?y <=? ?x)%F = true |- _ =>
      rewrite (leb_trans y x t Hyx H1) in H2; discriminate H2
  end.

Ltac mono_step :=
  lazymatch goal with
  | |- both_le (let s := ?v1 in @?b1 s) (let t := ?v2 in @?b2 t) =>
      let s1 := fresh "s" in
      let s2 := fresh "s" in
      let H := fresh "Hs" in
      pose (s1 := v1); pose (s2 := v2);
      assert (H : s1 <= s2)
        by (subst s1 s2; split_ifs_eq; first [lia | exfalso; contra]);
      change (both_le (b1 s1) (b2 s2)); cbv beta; clearbody s1 s2
  end.

(** X21: the quality score is monotone in its five inputs: a record
    whose ROE, ROA, gross margin, net margin and asset turnover are each
    at least those of another record gets a quality score at least as
    high. *)
Theorem quality_score_monotone (data1 data2 : record) :
  field_le float_of_str data1 data2 "roe" (of_Z 0) ->
  field_le float_of_str data1 data2 "roa" (of_Z 0) ->
  field_le float_of_str data1 data2 "gross_margin" (of_Z 0) ->
  field_le float_of_str data1 data2 "net_margin" (of_Z 0) ->
  field_le float_of_str data1 data2 "asset_turnover" (of_Z 0) ->
  both_le (calculate_quality_score float_of_str data1)
          (calculate_quality_score float_of_str data2).
Proof.
  intros (roe1 & roe2 & E1 & E2 & L1) (roa1 & roa2 & E3 & E4 & L2)
    (gm1 & gm2 & E5 & E6 & L3) (nm1 & nm2 & E7 & E8 & L4)
    (at1 & at2 & E9 & E10 & L5).
  cbv delta [calculate_quality_score]. cbv beta.
  rewrite E1, E2, E3, E4, E5, E6, E7, E8, E9, E10.
  rewrite !bind_Some. cbv beta.
  repeat mono_step.
  eexists. eexists. split; [reflexivity|]. split; [reflexivity|]. lia.
Qed.

(** X22: the safety score is monotone: a record with at most the debt
    to equity of another record, and at least its current ratio and its
    EPS, gets a safety score at least as high. *)
Theorem safety_score_monotone (data1 data2 : record) :
  field_le float_of_str data2 data1 "debt_equity" (of_Z 1) ->
  field_le float_of_str data1 data2 "current_ratio" (of_Z 1) ->
  field_le float_of_str data1 data2 "eps" (of_Z 0) ->
  both_le (calculate_safety_score float_of_str data1)
          (calculate_safety_score float_of_str data2).
Proof.
  intros (de2 & de1 & E1 & E2 & L1) (cr1 & cr2 & E3 & E4 & L2)
    (eps1 & eps2 & E5 & E6 & L3).
  cbv delta [calculate_safety_score]. cbv beta.
  rewrite E1, E2, E3, E4, E5, E6.
  rewrite !bind_Some. cbv beta.
  repeat mono_step.
  eexists. eexists. split; [reflexivity|]. split; [reflexivity|]. lia.
Qed.

End Monotone.

Lemma determine_grade_monotone_health_witness :
  grade_rank (determine_grade 70 8 (of_Z 3))
    <= grade_rank (determine_grade 70 2 (of_Z 1)).
Proof.
  apply (determine_grade_monotone_health 70 2 8 (of_Z 1) (of_Z 3));
    [lia|reflexivity].
Defined.

Lemma quality_score_monotone_witness :
  both_le (calculate_quality_score (fun _ => None) high_debt_record)
          (calculate_quality_score (fun _ => None) low_debt_record).
Proof.
  apply (quality_score_monotone (fun _ => None) high_debt_record
           low_debt_record);
    (eexists; eexists; split; [reflexivity|split; reflexivity]).
Defined.

Lemma safety_score_monotone_witness :
  both_le (calculate_safety_score (fun _ => None) high_debt_record)
          (calculate_safety_score (fun _ => None) low_debt_record).
Proof.
  apply (safety_score_monotone (fun _ => None) high_debt_record
           low_debt_record);
    (eexists; eexists; split; [reflexivity|split; reflexivity]).
Defined.
